(** * Prometheus metrics client of the scheduler: model and properties

    Source: [pkg/scheduler/metrics/source/metrics_client_prometheus.go].

    The file has one constructor, [NewPrometheusMetricsClient], and one
    method, [NodeMetricsAvg].  The method builds an API client, sends one
    instant query per metric ([cpu_usage_avg], [mem_usage_avg]) and reads
    the value of the first sample out of the textual rendering of the
    result.

    Go strings are byte strings and are modelled by [string]; the functions
    of the Go packages [strings] and [fmt] that the file calls are modelled
    on bytes, next to the code that uses them.  The calls that leave the
    process ([api.NewClient], [v1api.Query]) and [strconv.ParseFloat] are
    variables of the section that holds the method. *)

From Stdlib Require Import Strings.String Strings.Ascii NArith List Lia QArith.
From stdpp Require Import base option list strings gmap.

Local Open Scope list_scope.
Local Open Scope string_scope.

(** Let [simpl] compute the append of a string that starts with known
    bytes. *)
Local Arguments String.append !s1 s2.

(** ** Bytes and byte strings *)

(** The double quote character, byte 34. *)
Definition dquote : string := String "034"%char "".

Definition byte_in (lo hi : N) (c : ascii) : bool :=
  ((lo <=? N_of_ascii c) && (N_of_ascii c <=? hi))%N.

Definition byte_is (n : N) (c : ascii) : bool := (N_of_ascii c =? n)%N.

(** [s[n:]] *)
Fixpoint skip (n : nat) (s : string) : string :=
  match n, s with
  | S n', String _ r => skip n' r
  | _, _ => s
  end.

(** [s[:n]] *)
Fixpoint upto (n : nat) (s : string) : string :=
  match n, s with
  | S n', String c r => String c (upto n' r)
  | _, _ => ""
  end.

Fixpoint rev_onto (s acc : string) : string :=
  match s with
  | "" => acc
  | String c r => rev_onto r (String c acc)
  end.

Definition reverse (s : string) : string := rev_onto s "".

(** Every byte of [s] satisfies [p]. *)
Fixpoint all_bytes (p : ascii -> bool) (s : string) : bool :=
  match s with
  | "" => true
  | String c r => p c && all_bytes p r
  end.

(** ** Package [strings] *)

Module strings.

(** [strings.HasPrefix(s, prefix)] *)
Fixpoint HasPrefix (s prefix : string) {struct prefix} : bool :=
  match prefix, s with
  | "", _ => true
  | String p ps, String c cs => Ascii.eqb c p && HasPrefix cs ps
  | String _ _, "" => false
  end.

(** [strings.Index(s, substr)]: the offset of the first occurrence of
    [substr] in [s]; Go's [-1] is [None]. *)
Fixpoint Index (s substr : string) {struct s} : option nat :=
  if HasPrefix s substr then Some 0
  else match s with
       | "" => None
       | String _ r => S <$> Index r substr
       end.

(** [strings.Contains(s, substr)] is [Index(s, substr) >= 0]. *)
Definition Contains (s substr : string) : bool :=
  match Index s substr with Some _ => true | None => false end.

(** The loop of [strings.Count] for a non-empty [substr]: occurrences
    are counted from the left without overlap.  Each round drops at least
    one byte, so [length s] rounds are enough. *)
Fixpoint countLoop (rounds : nat) (s substr : string) : nat :=
  match rounds with
  | 0 => 0
  | S k =>
      match Index s substr with
      | None => 0
      | Some i => S (countLoop k (skip (i + String.length substr) s) substr)
      end
  end.

Definition Count (s substr : string) : nat :=
  countLoop (String.length s) s substr.

(** The loop of [genSplit]: at most [n] cuts, each at the first
    occurrence of [sep] in what is left. *)
Fixpoint genSplit (n : nat) (s sep : string) : list string :=
  match n with
  | 0 => [s]
  | S k =>
      match Index s sep with
      | None => [s]
      | Some m => upto m s :: genSplit k (skip (m + String.length sep) s) sep
      end
  end.

(** [strings.Split(s, sep)] for a non-empty [sep]; the three calls of the
    client pass the literals ["\n"], ["=>"] and [" "].  ([genSplit] caps
    the number of pieces at [len(s)+1], which [Count(s, sep) + 1] never
    exceeds.) *)
Definition Split (s sep : string) : list string :=
  genSplit (Count s sep) s sep.

(** [unicode.IsSpace] on the UTF-8 encodings of its code points.  One
    byte: [\t \n \v \f \r] and the space. *)
Definition asciiSpace (c : ascii) : bool := byte_in 9 13 c || byte_is 32 c.

(** Two bytes: U+0085 and U+00A0. *)
Definition space2 (a b : ascii) : bool :=
  byte_is 194 a && (byte_is 133 b || byte_is 160 b).

(** Three bytes: U+1680, U+2000..U+200A, U+2028, U+2029, U+202F, U+205F
    and U+3000. *)
Definition space3 (a b c : ascii) : bool :=
  (byte_is 225 a && byte_is 154 b && byte_is 128 c)
  || (byte_is 226 a && byte_is 128 b
      && (byte_in 128 138 c || byte_is 168 c || byte_is 169 c || byte_is 175 c))
  || (byte_is 226 a && byte_is 129 b && byte_is 159 c)
  || (byte_is 227 a && byte_is 128 b && byte_is 128 c).

(** Drop encoded code points from the front of [s] while they are white
    space.  [p2 a b] and [p3 a b c] read the bytes in the order in which
    they are met. *)
Fixpoint trimFront (p2 : ascii -> ascii -> bool)
    (p3 : ascii -> ascii -> ascii -> bool) (s : string) : string :=
  match s with
  | String a r =>
      if asciiSpace a then trimFront p2 p3 r
      else match r with
           | String b r2 =>
               if p2 a b then trimFront p2 p3 r2
               else match r2 with
                    | String c r3 => if p3 a b c then trimFront p2 p3 r3 else s
                    | "" => s
                    end
           | "" => s
           end
  | "" => s
  end.

(** [strings.TrimLeftFunc(s, unicode.IsSpace)] *)
Definition TrimLeft (s : string) : string := trimFront space2 space3 s.

(** [strings.TrimRightFunc(s, unicode.IsSpace)]: the same scan from the
    last byte backwards, where the bytes of an encoding are met in
    reverse. *)
Definition TrimRight (s : string) : string :=
  reverse (trimFront (fun a b => space2 b a) (fun a b c => space3 c b a)
             (reverse s)).

(** [strings.TrimSpace(s)] *)
Definition TrimSpace (s : string) : string := TrimRight (TrimLeft s).

(** [strings.Join(elems, sep)] *)
Fixpoint Join (elems : list string) (sep : string) : string :=
  match elems with
  | [] => ""
  | [x] => x
  | x :: rest => x ++ sep ++ Join rest sep
  end.

End strings.

(** ** Package [fmt] *)

(** A Go [error] is read through its [Error()] method only. *)
Record error := { Error : string }.

(** The operands the client passes to a formatting call. *)
Inductive operand :=
| OpString (s : string)
| OpError (e : error)
| OpStrings (l : list string).

Module fmt.

(** The default rendering of an operand, used by [%s] and [%v]: a
    string as it is, an error by [Error()], a slice of strings between
    brackets with spaces. *)
Definition render (a : operand) : string :=
  match a with
  | OpString s => s
  | OpError e => Error e
  | OpStrings l => "[" ++ strings.Join l " " ++ "]"
  end.

(** [fmt.Sprintf(format, a...)] for the verbs of this file, [%s] and
    [%v], and for [%%].  A verb without an operand renders as
    [%!s(MISSING)].  Other verbs and surplus operands do not occur in the
    client and are left as they are. *)
Fixpoint Sprintf (format : string) (a : list operand) : string :=
  match format with
  | String "%" (String v rest as tail) =>
      if (Ascii.eqb v "s" || Ascii.eqb v "v")%bool then
        match a with
        | x :: a' => render x ++ Sprintf rest a'
        | [] => "%!" ++ String v "(MISSING)" ++ Sprintf rest []
        end
      else if Ascii.eqb v "%" then String "%" (Sprintf rest a)
      else String "%" (Sprintf tail a)
  | String c rest => String c (Sprintf rest a)
  | "" => ""
  end.

End fmt.

(** ** Package [klog] *)

Inductive severity := InfoLog | WarningLog | ErrorLog.

(** One call of the logger: [klog.V(v).Infof] has verbosity [v], the calls
    [klog.Warningf] and [klog.Errorf] have verbosity 0.  Whether the line is
    printed depends on the process flags; the model keeps the calls. *)
Record logCall := { log_severity : severity; log_v : nat; log_msg : string }.

(** ** Package [pmodel]: query results *)

Inductive ValueType := ValNone | ValScalar | ValVector | ValMatrix | ValString.

Global Instance ValueType_eq_dec : EqDecision ValueType.
Proof. solve_decision. Defined.

(** A non-nil [pmodel.Value], seen through the two methods of the
    interface that the client calls, [Type()] and [String()]. *)
Record Value := { val_Type : ValueType; val_String : string }.

(** What [v1api.Query] returns: [(res, warnings, err)].  A nil [res] is
    [None]; the three components are independent, as in the signature. *)
Record queryReply := {
  reply_res : option Value;
  reply_warnings : list string;
  reply_err : option error
}.

(** ** Packages [tls], [http], [api] *)

Record tlsConfig := { InsecureSkipVerify : bool }.
Record httpTransport := { TLSClientConfig : tlsConfig }.
Record apiConfig := { Address : string; RoundTripper : httpTransport }.

(** ** Package [strconv] *)

(** The outcomes of [strconv.ParseFloat(s, 64)]: the nearest float and a
    nil error; [ErrSyntax] with the float 0; [ErrRange] with an infinity. *)
Inductive parseResult (float64 : Type) :=
| ParseOk (f : float64)
| ParseErrSyntax
| ParseErrRange (inf : float64).
Arguments ParseOk {float64} f.
Arguments ParseErrSyntax {float64}.
Arguments ParseErrRange {float64} inf.

(** ** The client *)

(** Modelled from the spec: the type declaration of [NodeMetrics] is in
    another file of the package; the spec gives it two floating-point
    fields, CPU and memory usage, zero when unavailable. *)
Record NodeMetrics (float64 : Type) := { Cpu : float64; Memory : float64 }.
Arguments Build_NodeMetrics {float64} Cpu Memory.
Arguments Cpu {float64} n.
Arguments Memory {float64} n.

(** promCpuUsageAvg record name of cpu average usage defined in prometheus rules *)
Definition promCpuUsageAvg : string := "cpu_usage_avg".
(** promMemUsageAvg record name of mem average usage defined in prometheus rules *)
Definition promMemUsageAvg : string := "mem_usage_avg".

Record PrometheusMetricsClient := {
  address : string;
  conf : gmap string string
}.

(** The constructor stores its arguments; its error is always nil. *)
Definition NewPrometheusMetricsClient (address : string) (conf : gmap string string)
  : option PrometheusMetricsClient * option error :=
  (Some {| address := address; conf := conf |}, None).

(** [conf[key]]: a Go map read gives the zero value for an absent key. *)
Definition mapIndex (conf : gmap string string) (key : string) : string :=
  default "" (conf !! key).

(** Lines 53-62: the configuration handed to [api.NewClient]. *)
Definition clientConfig (p : PrometheusMetricsClient) : apiConfig :=
  let insecureSkipVerify := String.eqb (mapIndex (conf p) "tls.insecureSkipVerify") "true" in
  let tr := {| TLSClientConfig := {| InsecureSkipVerify := insecureSkipVerify |} |} in
  {| Address := address p; RoundTripper := tr |}.

(** Line 69: the query of one metric. *)
Definition queryStr (metric period nodeName : string) : string :=
  fmt.Sprintf ("%s_%s{instance=" ++ dquote ++ "%s" ++ dquote ++ "}")
    [OpString metric; OpString period; OpString nodeName].

(** Lines 87-89: the value token of the first row of a rendering.  An
    index out of range, a run-time panic in Go, is [None]. *)
Definition firstValue (rendering : string) : option string :=
  firstRowValVector ← strings.Split rendering (String "010" "") !! 0;
  let rowValues := strings.Split (strings.TrimSpace firstRowValVector) "=>" in
  second ← rowValues !! 1;
  let value := strings.Split (strings.TrimSpace second) " " in
  value !! 0.

(** ** The rendering of a vector, as the spec and the comment of line 86
    describe it *)

(** Bytes 33 to 126: the printable ASCII characters other than the space. *)
Definition graphic (c : ascii) : bool := byte_in 33 126 c.

Definition notNewline (c : ascii) : bool := negb (byte_is 10 c).

Definition blank (c : ascii) : bool := negb (graphic c).

(** One row: [{labels} => <value> @<timestamp>]. *)
Record sample := { labels : string; value : string; stamp : string }.

Definition sampleString (s : sample) : string :=
  labels s ++ " => " ++ value s ++ " @" ++ stamp s.

(** The rows of a vector, newline-separated. *)
Definition vectorString (rows : list sample) : string :=
  strings.Join (sampleString <$> rows) (String "010" "").

(** A row the client can read: the label part has no line break and no
    ["=>"]; the value is a non-empty run of printable characters without
    ["=>"]. *)
Definition readable (s : sample) : bool :=
  all_bytes notNewline (labels s)
  && negb (strings.Contains (labels s) "=>")
  && negb (String.eqb (value s) "")
  && all_bytes graphic (value s)
  && negb (strings.Contains (value s) "=>").

(** The first line of a text: the bytes before its first line break. *)
Fixpoint firstLine (s : string) : string :=
  match s with
  | "" => ""
  | String c r => if byte_is 10 c then "" else String c (firstLine r)
  end.

(** The piece of [s] before the first occurrence of [sep]; all of [s]
    when there is none. *)
Definition firstPiece (s sep : string) : string :=
  match strings.Index s sep with
  | None => s
  | Some m => upto m s
  end.

(** No occurrence of [sep] in [X ++ B] starts inside [X]. *)
Fixpoint clearOf (sep X B : string) : Prop :=
  match X with
  | "" => True
  | String _ X' => strings.HasPrefix (X ++ B) sep = false /\ clearOf sep X' B
  end.

(** [B] is empty or starts with a space. *)
Definition spaced (B : string) : bool :=
  match B with
  | "" => true
  | String c _ => Ascii.eqb c " "
  end.

(** ** One reply, as the loop body sees it *)

(** What lines 78-89 read from a reply: [Some None] when the metric is
    skipped, [Some (Some token)] when a value token is read, [None] when an
    index is out of range. *)
Definition tokenOf (r : queryReply) : option (option string) :=
  match reply_res r with
  | None => Some None
  | Some res =>
      if String.eqb (val_String res) "" then Some None
      else if bool_decide (val_Type res <> ValVector) then Some None
      else match firstValue (val_String res) with
           | None => None
           | Some value0 => Some (Some value0)
           end
  end.

(** The reply is nil, renders to the empty string or is not a vector. *)
Definition skipped (r : queryReply) : bool :=
  match reply_res r with
  | None => true
  | Some res =>
      String.eqb (val_String res) "" || bool_decide (val_Type res <> ValVector)
  end.

(** The reply is skipped or its first line holds an arrow. *)
Definition wellFormed (r : queryReply) : bool :=
  match reply_res r with
  | None => true
  | Some res =>
      skipped r || strings.Contains (firstLine (val_String res)) "=>"
  end.

(** The reply is a vector whose first row is [row], a row the client can
    read. *)
Definition vectorOf (r : queryReply) (row : sample) (more : list sample) : Prop :=
  exists res, reply_res r = Some res /\ val_Type res = ValVector
              /\ val_String res = vectorString (row :: more)
              /\ readable row = true.

Definition logLine (sev : severity) (v : nat) (format : string) (a : list operand)
  : logCall :=
  {| log_severity := sev; log_v := v; log_msg := fmt.Sprintf format a |}.

(** The logger calls of one iteration, for the query [q] and its reply. *)
Definition replyLog (q : string) (r : queryReply) : list logCall :=
  [logLine InfoLog 4 "Query prometheus by %s" [OpString q]]
  ++ match reply_err r with
     | Some err => [logLine ErrorLog 0 "Error querying Prometheus: %v" [OpError err]]
     | None => []
     end
  ++ (if (0 <? length (reply_warnings r))%nat
      then [logLine InfoLog 3 "Warning querying Prometheus: %v"
              [OpStrings (reply_warnings r)]]
      else [])
  ++ match reply_res r with
     | Some res =>
         if String.eqb (val_String res) ""
         then [logLine WarningLog 0
                 "Warning querying Prometheus: no data found for %s" [OpString q]]
         else []
     | None => [logLine WarningLog 0
                  "Warning querying Prometheus: no data found for %s" [OpString q]]
     end.

(** ** The method [NodeMetricsAvg] *)

Section NodeMetricsAvg.

(** [float64] and its zero value. *)
Context {float64 : Type} (fzero : float64).

(** [strconv.ParseFloat(s, 64)] *)
Variable parseFloat : string -> parseResult float64.

(** [api.Client], and [api.NewClient], which fails on an address that
    does not parse. *)
Context {Client : Type}.
Variable NewClient : apiConfig -> Client + error.

(** The world outside the process: the clock read by [time.Now()], the
    network and the backend.  [v1api.Query] reads and changes it. *)
Context {Ctx World : Type}.
Variable Query : Client -> Ctx -> string -> World -> queryReply * World.

(** The pair [(f, err)] that Go's [ParseFloat] returns. *)
Definition ParseFloat (s : string) : float64 * option error :=
  match parseFloat s with
  | ParseOk f => (f, None)
  | ParseErrSyntax =>
      (fzero, Some {| Error := "strconv.ParseFloat: parsing " ++ s ++ ": invalid syntax" |})
  | ParseErrRange inf =>
      (inf, Some {| Error := "strconv.ParseFloat: parsing " ++ s ++ ": value out of range" |})
  end.

(** State threaded through a call: the world and the logger calls made so
    far, oldest first. *)
Record state := { world : World; logged : list logCall }.

(** The state after one iteration of the loop: the world [w] left by
    the query [q], and the logger calls for its reply [r]. *)
Definition afterReply (st : state) (w : World) (q : string) (r : queryReply)
  : state :=
  {| world := w; logged := (logged st ++ replyLog q r)%list |}.

(** The state after line 50. *)
Definition afterStart (p : PrometheusMetricsClient) (st : state) : state :=
  {| world := world st;
     logged := (logged st ++
                  [logLine InfoLog 4 "Get node metrics from Prometheus: %s"
                     [OpString (address p)]])%list |}.

(** The float that a reply leaves in its field: the parsed token when
    one is read, the zero value otherwise. *)
Definition fieldOf (r : queryReply) : float64 :=
  match tokenOf r with
  | Some (Some token) => fst (ParseFloat token)
  | _ => fzero
  end.

(** A computation ends with a value or with a run-time panic. *)
Inductive result (A : Type) :=
| Done (a : A) (st : state)
| Panicked (st : state).
Arguments Done {A} a st.
Arguments Panicked {A} st.

Definition M (A : Type) : Type := state -> result A.

Definition ret {A} (a : A) : M A := fun st => Done a st.

Definition bind {A B} (m : M A) (k : A -> M B) : M B :=
  fun st => match m st with
            | Done a st' => k a st'
            | Panicked st' => Panicked st'
            end.

Definition panic {A} : M A := fun st => Panicked st.

Local Instance M_ret : MRet M := @ret.
Local Instance M_bind : MBind M := fun A B k m => bind m k.

Definition logf (sev : severity) (v : nat) (format : string) (a : list operand)
  : M unit :=
  fun st =>
    Done tt {| world := world st;
               logged := (logged st ++ [logLine sev v format a])%list |}.

Definition when (b : bool) (m : M unit) : M unit := if b then m else ret tt.

(** [v1api.Query(ctx, queryStr, time.Now())] *)
Definition query (client : Client) (ctx : Ctx) (q : string) : M queryReply :=
  fun st =>
    let '(reply, w) := Query client ctx q (world st) in
    Done reply {| world := w; logged := logged st |}.

(** Lines 69-97: the body of the loop for one [metric].  [nodeMetrics] is
    the record behind the pointer; the body returns it as it is after the
    iteration, and [continue] returns it unchanged. *)
Definition metricBody (client : Client) (ctx : Ctx) (nodeName period : string)
    (nodeMetrics : NodeMetrics float64) (metric : string)
  : M (NodeMetrics float64) :=
  let queryStr := queryStr metric period nodeName in
  logf InfoLog 4 "Query prometheus by %s" [OpString queryStr] ;;
  reply ← query client ctx queryStr ;
  match reply_err reply with
  | Some err => logf ErrorLog 0 "Error querying Prometheus: %v" [OpError err]
  | None => ret tt
  end ;;
  when (0 <? length (reply_warnings reply))%nat
    (logf InfoLog 3 "Warning querying Prometheus: %v"
       [OpStrings (reply_warnings reply)]) ;;
  let noData :=
    logf WarningLog 0 "Warning querying Prometheus: no data found for %s"
      [OpString queryStr] ;;
    ret nodeMetrics in
  match reply_res reply with
  | None => noData
  | Some res =>
      if String.eqb (val_String res) "" then noData
      else if bool_decide (val_Type res <> ValVector) then ret nodeMetrics
      else
        match firstValue (val_String res) with
        | None => panic
        | Some value0 =>
            if String.eqb metric promCpuUsageAvg then
              let cpuUsage := fst (ParseFloat value0) in
              ret {| Cpu := cpuUsage; Memory := Memory nodeMetrics |}
            else if String.eqb metric promMemUsageAvg then
              let memUsage := fst (ParseFloat value0) in
              ret {| Cpu := Cpu nodeMetrics; Memory := memUsage |}
            else ret nodeMetrics
        end
  end.

(** [for _, metric := range metrics { body }] *)
Fixpoint forRange (body : NodeMetrics float64 -> string -> M (NodeMetrics float64))
    (metrics : list string) (nodeMetrics : NodeMetrics float64)
  : M (NodeMetrics float64) :=
  match metrics with
  | [] => ret nodeMetrics
  | metric :: rest =>
      nodeMetrics' ← body nodeMetrics metric ;
      forRange body rest nodeMetrics'
  end.

(** Lines 49-99.  The method returns a pointer and an error; the pair
    is modelled by two options, [None] for nil. *)
Definition NodeMetricsAvg (p : PrometheusMetricsClient) (ctx : Ctx)
    (nodeName period : string)
  : M (option (NodeMetrics float64) * option error) :=
  logf InfoLog 4 "Get node metrics from Prometheus: %s" [OpString (address p)] ;;
  match NewClient (clientConfig p) with
  | inr err => ret (None, Some err)
  | inl client =>
      nodeMetrics ← forRange (metricBody client ctx nodeName period)
                        [promCpuUsageAvg; promMemUsageAvg]
                        {| Cpu := fzero; Memory := fzero |} ;
      ret (Some nodeMetrics, None)
  end.

End NodeMetricsAvg.

Arguments state World : clear implicits.
Arguments Done {World A} a st.
Arguments Panicked {World A} st.
Arguments ret {World A} a st.
Arguments bind {World A B} m k st.

(** ** Stand-ins for the outside world, to run the client on examples *)

Module Demo.

Definition digit (c : ascii) : option N :=
  if byte_in 48 57 c then Some (N_of_ascii c - 48)%N else None.

(** Reads decimal digits: the number read so far, the count of digits
    read and the rest. *)
Fixpoint digits (s : string) (acc : N) (count : nat) : N * nat * string :=
  match s with
  | String c r =>
      match digit c with
      | Some d => digits r (10 * acc + d)%N (S count)
      | None => (acc, count, s)
      end
  | "" => (acc, count, s)
  end.

(** The plain decimal literals of [strconv.ParseFloat], [digits] or
    [digits.digits] with an optional sign, read as rationals; every other
    text is a syntax error. *)
Definition parseFloat (s : string) : parseResult Q :=
  let '(neg, body) :=
    match s with
    | String "-" r => (true, r)
    | String "+" r => (false, r)
    | _ => (false, s)
    end in
  let sign (q : Q) : Q := if neg : bool then Qopp q else q in
  match digits body 0 0 with
  | (_, 0, _) => ParseErrSyntax
  | (n, _, "") => ParseOk (sign (Z.of_N n # 1))
  | (n, _, String "." frac) =>
      match digits frac n 0 with
      | (_, 0, _) => ParseErrSyntax
      | (m, k, "") => ParseOk (sign (Z.of_N m # Pos.pow 10 (Pos.of_nat k)))
      | _ => ParseErrSyntax
      end
  | _ => ParseErrSyntax
  end.

(** [api.NewClient] parses the address with [url.Parse], which rejects
    ASCII control bytes among other things. *)
Definition control (c : ascii) : bool := byte_in 0 31 c || byte_is 127 c.

Definition NewClient (cfg : apiConfig) : unit + error :=
  if all_bytes (fun c => negb (control c)) (Address cfg) then inl tt
  else inr {| Error := "net/url: invalid control character in URL" |}.

(** A backend that answers by a fixed table; the world is the list of the
    queries received. *)
Definition Query (answers : string -> queryReply)
    (client : unit) (ctx : unit) (q : string) (w : list string)
  : queryReply * list string :=
  (answers q, (w ++ [q])%list).

Definition vector (rendering : string) : Value :=
  {| val_Type := ValVector; val_String := rendering |}.

Definition ok (v : Value) : queryReply :=
  {| reply_res := Some v; reply_warnings := []; reply_err := None |}.

Definition noData : queryReply :=
  {| reply_res := None; reply_warnings := []; reply_err := None |}.

Definition failed (msg : string) : queryReply :=
  {| reply_res := None; reply_warnings := []; reply_err := Some {| Error := msg |} |}.

(** The answers [cpu] and [mem] to the two queries of node [worker-1]
    over [5m]. *)
Definition answers (cpu mem : queryReply) (q : string) : queryReply :=
  if String.eqb q ("cpu_usage_avg_5m{instance=" ++ dquote ++ "worker-1" ++ dquote ++ "}")
  then cpu else mem.

(** Nothing sent and nothing logged yet. *)
Definition start : state (list string) := {| world := []; logged := [] |}.

Definition client (address : string) : PrometheusMetricsClient :=
  {| address := address; conf := ∅ |}.

Definition cpuQuery : string :=
  "cpu_usage_avg_5m{instance=" ++ dquote ++ "worker-1" ++ dquote ++ "}".

Definition memQuery : string :=
  "mem_usage_avg_5m{instance=" ++ dquote ++ "worker-1" ++ dquote ++ "}".

Definition cpuRow : sample :=
  {| labels := cpuQuery; value := "0.5"; stamp := "[1700000000.123]" |}.

Definition otherRow : sample :=
  {| labels := "cpu_usage_avg_5m{instance=" ++ dquote ++ "worker-2" ++ dquote ++ "}";
     value := "0.75"; stamp := "[1700000000.123]" |}.

Definition memRow : sample :=
  {| labels := memQuery; value := "12.25"; stamp := "[1700000000.123]" |}.

Definition cpuReply : queryReply := ok (vector (vectorString [cpuRow; otherRow])).

Definition memReply : queryReply := ok (vector (vectorString [memRow])).

(** A query that fails and still comes back with a result. *)
Definition failedWithResult : queryReply :=
  {| reply_res := Some (vector "{} => 0.5 @[1]");
     reply_warnings := [];
     reply_err := Some {| Error := "bad_response: invalid character" |} |}.

(** A vector whose value token is not a number. *)
Definition garbled : queryReply := ok (vector "{} => abc @[1]").

Definition goodAddress : string := "http://prometheus:9090".

(** An address with a line break at its end. *)
Definition badAddress : string := "http://prometheus:9090" ++ String "010" "".


(** One call for node [worker-1] over [5m]. *)
Definition run (address : string) (cpu mem : queryReply)
  : result (option (NodeMetrics Q) * option error) :=
  NodeMetricsAvg 0%Q parseFloat NewClient (Query (answers cpu mem))
    (client address) tt "worker-1" "5m" start.

End Demo.

(** ** The end of a call *)

(** What a call hands back to its caller; a panic hands back nothing. *)
Definition returned {World A : Type} (r : @result World A) : option A :=
  match r with
  | Done a _ => Some a
  | Panicked _ => None
  end.

(** The world and the logger calls when the call ends, by return or by
    panic. *)
Definition finalState {World A : Type} (r : @result World A) : state World :=
  match r with
  | Done _ st => st
  | Panicked st => st
  end.

Definition hasSeverity (sev : severity) (l : logCall) : bool :=
  match sev, log_severity l with
  | InfoLog, InfoLog | WarningLog, WarningLog | ErrorLog, ErrorLog => true
  | _, _ => false
  end.

(** The messages that a call starting in [st] and ending in [st'] logged
    with severity [sev], oldest first. *)
Definition messagesSince {World : Type} (sev : severity) (st st' : state World)
  : list string :=
  log_msg <$> List.filter (hasSeverity sev) (drop (length (logged st)) (logged st')).

(** The reply has no result or a result that renders to nothing: the
    condition of line 78. *)
Definition noData (r : queryReply) : bool :=
  match reply_res r with
  | None => true
  | Some res => String.eqb (val_String res) ""
  end.

(** ** Rows with any spacing *)

(** A byte of white space other than the line break. *)
Definition gapByte (c : ascii) : bool := strings.asciiSpace c && notNewline c.

(** What follows the value ends the token: nothing, a space or a line
    break. *)
Definition endsToken (post : string) : bool :=
  match post with
  | "" => true
  | String c _ => Ascii.eqb c " " || byte_is 10 c
  end.

(** ** White space at the front *)

(** [s] starts with an encoded white-space code point, in the reading of
    [strings.trimFront]. *)
Definition leadsSpace (p2 : ascii -> ascii -> bool)
    (p3 : ascii -> ascii -> ascii -> bool) (s : string) : bool :=
  match s with
  | String a r =>
      strings.asciiSpace a
      || match r with
         | String b r2 =>
             p2 a b
             || match r2 with
                | String c _ => p3 a b c
                | "" => false
                end
         | "" => false
         end
  | "" => false
  end.

(** [s] starts with white space, and [s] ends with white space. *)
Definition startsWithSpace (s : string) : bool :=
  leadsSpace strings.space2 strings.space3 s.

Definition endsWithSpace (s : string) : bool :=
  leadsSpace (fun a b => strings.space2 b a) (fun a b c => strings.space3 c b a)
    (reverse s).

(** ** A stand-in for [strconv.ParseFloat] with a range error *)

Module DemoRange.

Inductive efloat := Finite (q : Q) | PlusInf | MinusInf.

(** [digits e digits] with a mantissa of at least 1 and an exponent of at
    least 309 is beyond the largest float64: [ParseFloat] returns an
    infinity and [ErrRange].  Other texts go to [Demo.parseFloat]. *)
Definition parseFloat (s : string) : parseResult efloat :=
  let '(neg, body) :=
    match s with
    | String "-" r => (true, r)
    | String "+" r => (false, r)
    | _ => (false, s)
    end in
  let plain :=
    match Demo.parseFloat s with
    | ParseOk q => ParseOk (Finite q)
    | ParseErrSyntax => ParseErrSyntax
    | ParseErrRange q => ParseErrRange (Finite q)
    end in
  match Demo.digits body 0 0 with
  | (n, S _, String "e" e) =>
      match Demo.digits e 0 0 with
      | (x, S _, "") =>
          if ((1 <=? n) && (309 <=? x))%N
          then ParseErrRange (if neg : bool then MinusInf else PlusInf)
          else plain
      | _ => plain
      end
  | _ => plain
  end.

Definition tooLarge : queryReply := Demo.ok (Demo.vector "{} => 1e999 @[1]").

End DemoRange.

(** ** A row with an arrow inside a label value *)

Module DemoArrow.

(** The sample [cpu_usage_avg_5m{instance="worker-1", job="a=> 7 "}] with
    the value 0.5. *)
Definition row : sample :=
  {| labels := "cpu_usage_avg_5m{instance=" ++ dquote ++ "worker-1" ++ dquote
               ++ ", job=" ++ dquote ++ "a=> 7 " ++ dquote ++ "}";
     value := "0.5";
     stamp := "[1700000000.123]" |}.

Definition reply : queryReply := Demo.ok (Demo.vector (vectorString [row])).

End DemoArrow.

(** * Properties *)

(** ** The library functions on examples *)

Example Split_rows :
  strings.Split ("a => 1 @[2]" ++ String "010" "b => 3 @[4]") (String "010" "")
  = ["a => 1 @[2]"; "b => 3 @[4]"].
Proof. reflexivity. Qed.

Example Split_overlap : strings.Split "a==>>b=>c" "=>" = ["a="; ">b"; "c"].
Proof. reflexivity. Qed.

Example Split_absent : strings.Split "abc" "=>" = ["abc"].
Proof. reflexivity. Qed.

Example Split_empty : strings.Split "" " " = [""].
Proof. reflexivity. Qed.

Example TrimSpace_ascii :
  strings.TrimSpace (String "009" "  0.5 @[1] " ++ String "013" (String "010" ""))
  = "0.5 @[1]".
Proof. reflexivity. Qed.

Example TrimSpace_nbsp :
  strings.TrimSpace (String "194" (String "160" "x" ++ String "226" (String "128" (String "168" ""))))
  = "x".
Proof. reflexivity. Qed.

Example TrimSpace_lone_continuation :
  strings.TrimSpace (String "160" "x") = String "160" "x".
Proof. reflexivity. Qed.

Example Sprintf_missing : fmt.Sprintf "%s_%s" [OpString "a"] = "a_%!s(MISSING)".
Proof. reflexivity. Qed.

Example Sprintf_warnings :
  fmt.Sprintf "Warning querying Prometheus: %v" [OpStrings ["w1"; "w2"]]
  = "Warning querying Prometheus: [w1 w2]".
Proof. reflexivity. Qed.

(** An arrow inside a label value is taken for the separator of the row:
    the token read is a piece of the label, not the value [0.5]. *)
Example arrow_in_label : firstValue "{job=a=>b} => 0.5 @[1]" = Some "b}".
Proof. reflexivity. Qed.

(** ** Byte strings *)

Lemma append_nil_r (s : string) : s ++ "" = s.
Proof. induction s as [|c s IH]; simpl; [reflexivity | now rewrite IH]. Qed.

Lemma append_assoc (a b c : string) : (a ++ b) ++ c = a ++ b ++ c.
Proof. induction a as [|x a IH]; simpl; [reflexivity | now rewrite IH]. Qed.

Lemma length_append (a b : string) :
  String.length (a ++ b) = String.length a + String.length b.
Proof. induction a as [|x a IH]; simpl; [reflexivity | now rewrite IH]. Qed.

Lemma rev_onto_append (s acc : string) : rev_onto s acc = reverse s ++ acc.
Proof.
  unfold reverse. revert acc.
  induction s as [|c s IH]; intros acc; simpl; [reflexivity|].
  rewrite (IH (String c acc)), (IH (String c "")), append_assoc. reflexivity.
Qed.

Lemma reverse_cons (c : ascii) (s : string) :
  reverse (String c s) = reverse s ++ String c "".
Proof. unfold reverse at 1. simpl. apply rev_onto_append. Qed.

Lemma reverse_append (a b : string) : reverse (a ++ b) = reverse b ++ reverse a.
Proof.
  induction a as [|x a IH]; simpl.
  - now rewrite append_nil_r.
  - now rewrite !reverse_cons, IH, append_assoc.
Qed.

Lemma reverse_involutive (s : string) : reverse (reverse s) = s.
Proof.
  induction s as [|c s IH]; [reflexivity|].
  rewrite reverse_cons, reverse_append, IH. reflexivity.
Qed.

Lemma all_bytes_append (p : ascii -> bool) (a b : string) :
  all_bytes p (a ++ b) = all_bytes p a && all_bytes p b.
Proof.
  induction a as [|x a IH]; simpl; [reflexivity|].
  now rewrite IH, andb_assoc.
Qed.

Lemma all_bytes_reverse (p : ascii -> bool) (s : string) :
  all_bytes p (reverse s) = all_bytes p s.
Proof.
  induction s as [|c s IH]; [reflexivity|].
  rewrite reverse_cons, all_bytes_append, IH. simpl.
  rewrite andb_true_r. apply andb_comm.
Qed.

Lemma all_bytes_impl (p q : ascii -> bool) (s : string) :
  (forall c, p c = true -> q c = true) ->
  all_bytes p s = true -> all_bytes q s = true.
Proof.
  intros Hpq. induction s as [|c s IH]; simpl; [reflexivity|].
  intros [Hc Hs]%andb_true_iff. rewrite (Hpq c Hc). simpl. auto.
Qed.

Ltac string_norm := repeat progress (rewrite ?append_assoc; simpl).

Lemma skip_append (a b : string) (n : nat) :
  skip (String.length a + n) (a ++ b) = skip n b.
Proof. induction a as [|x a IH]; simpl; [reflexivity | exact IH]. Qed.

Lemma upto_append (a b : string) (n : nat) :
  upto (String.length a + n) (a ++ b) = a ++ upto n b.
Proof. induction a as [|x a IH]; simpl; [reflexivity | now rewrite IH]. Qed.

Lemma skip_length (n : nat) (s : string) :
  String.length (skip n s) <= String.length s.
Proof.
  revert s. induction n as [|n IH]; intros [|c s]; simpl; try lia.
  specialize (IH s). lia.
Qed.

Lemma nonempty_last (s : string) :
  s <> "" -> exists s' y, s = s' ++ String y "".
Proof.
  induction s as [|c s IH]; [congruence|]. intros _.
  destruct s as [|d s].
  - exists "", c. reflexivity.
  - destruct IH as (s' & y & E); [discriminate|].
    exists (String c s'), y. simpl. now rewrite <- E.
Qed.

(** ** [strings.Index] and [strings.Split] *)

Lemma HasPrefix_append (sep r : string) : strings.HasPrefix (sep ++ r) sep = true.
Proof.
  induction sep as [|x sep IH]; simpl; [reflexivity|].
  now rewrite Ascii.eqb_refl, IH.
Qed.

Lemma Index_empty (x : ascii) (sep : string) : strings.Index "" (String x sep) = None.
Proof. reflexivity. Qed.

Lemma Index_cons (c : ascii) (s sep : string) :
  strings.HasPrefix (String c s) sep = false ->
  strings.Index (String c s) sep = S <$> strings.Index s sep.
Proof. intros H. simpl strings.Index. simpl in H. now rewrite H. Qed.

Lemma Index_append_clear (sep X B : string) :
  clearOf sep X B ->
  strings.Index (X ++ B) sep = (fun m => String.length X + m) <$> strings.Index B sep.
Proof.
  induction X as [|c X IH]; simpl clearOf.
  - intros _. simpl. now destruct (strings.Index B sep).
  - intros [Hhd Htl]. change (String c X ++ B) with (String c (X ++ B)) in *.
    rewrite (Index_cons _ _ _ Hhd), (IH Htl).
    now destruct (strings.Index B sep).
Qed.

Lemma firstPiece_append (sep X B : string) :
  clearOf sep X B -> firstPiece (X ++ B) sep = X ++ firstPiece B sep.
Proof.
  intros H. unfold firstPiece. rewrite (Index_append_clear _ _ _ H).
  destruct (strings.Index B sep) as [m|]; simpl; [|reflexivity].
  apply upto_append.
Qed.

Lemma clearOf_suffix (sep l A B : string) :
  clearOf sep (l ++ A) B -> clearOf sep A B.
Proof. induction l as [|c l IH]; simpl; [auto | intros [_ H]; auto]. Qed.

Lemma clearOf_append (sep X Y B : string) :
  clearOf sep X (Y ++ B) -> clearOf sep Y B -> clearOf sep (X ++ Y) B.
Proof.
  intros HX HY. induction X as [|c X IH]; simpl in *; [exact HY|].
  destruct HX as [Hhd Htl]. split; [|auto].
  now rewrite append_assoc.
Qed.

(** No byte of [X] is the first byte of [sep]. *)
Lemma clearOf_bytes (x : ascii) (sep X B : string) :
  all_bytes (fun c => negb (Ascii.eqb c x)) X = true ->
  clearOf (String x sep) X B.
Proof.
  induction X as [|c X IH]; simpl; [auto|].
  intros [Hc HX]%andb_true_iff. split; [|auto].
  apply negb_true_iff in Hc. now rewrite Hc.
Qed.

Lemma Index_None_cons (c : ascii) (s sep : string) :
  strings.Index (String c s) sep = None ->
  strings.HasPrefix (String c s) sep = false /\ strings.Index s sep = None.
Proof.
  simpl strings.Index.
  destruct (strings.HasPrefix (String c s) sep); [discriminate|].
  destruct (strings.Index s sep); [discriminate | auto].
Qed.

(** The arrow does not occur in [X], and [B] does not start with [>]. *)
Lemma clearOf_arrow (X B : string) :
  strings.Index X "=>" = None ->
  strings.HasPrefix B ">" = false ->
  clearOf "=>" X B.
Proof.
  intros HX HB. induction X as [|c X IH]; simpl clearOf; [auto|].
  apply Index_None_cons in HX as [Hhd Htl]. split; [|auto].
  destruct X as [|d X]; simpl in *.
  - destruct (Ascii.eqb c "="); [|reflexivity]. simpl.
    destruct B as [|b B]; [reflexivity|]. simpl in HB.
    destruct (Ascii.eqb b ">"); [discriminate | reflexivity].
  - exact Hhd.
Qed.

Lemma countLoop_zero (k : nat) (s : string) (x : ascii) (sep : string) :
  String.length s <= k ->
  strings.countLoop k s (String x sep) = 0 ->
  strings.Index s (String x sep) = None.
Proof.
  destruct k as [|k]; simpl strings.countLoop.
  - destruct s; simpl; [reflexivity | lia].
  - intros _. destruct (strings.Index s (String x sep)); [discriminate | reflexivity].
Qed.

Lemma genSplit_first (k : nat) (s : string) (x : ascii) (sep : string) :
  String.length s <= k ->
  strings.genSplit (strings.countLoop k s (String x sep)) s (String x sep) !! 0
  = Some (firstPiece s (String x sep)).
Proof.
  intros Hk. unfold firstPiece.
  destruct (strings.countLoop k s (String x sep)) as [|n] eqn:E.
  - now rewrite (countLoop_zero _ _ _ _ Hk E).
  - simpl strings.genSplit. now destruct (strings.Index s (String x sep)).
Qed.

(** [strings.Split(s, sep)[0]] is in range for every [s]. *)
Lemma Split_0 (s : string) (x : ascii) (sep : string) :
  strings.Split s (String x sep) !! 0 = Some (firstPiece s (String x sep)).
Proof. apply genSplit_first. lia. Qed.

(** [strings.Split(s, sep)[1]] is in range when [sep] occurs in [s]. *)
Lemma Split_1 (s : string) (x : ascii) (sep : string) :
  strings.Split s (String x sep) !! 1
  = match strings.Index s (String x sep) with
    | None => None
    | Some m =>
        Some (firstPiece (skip (m + String.length (String x sep)) s) (String x sep))
    end.
Proof.
  unfold strings.Split, strings.Count.
  destruct s as [|c s]; [reflexivity|].
  change (String.length (String c s)) with (S (String.length s)).
  cbn [strings.countLoop].
  destruct (strings.Index (String c s) (String x sep)) as [m|] eqn:E.
  - cbn [strings.genSplit]. rewrite E.
    change ((?a :: ?l) !! 1) with (l !! 0).
    apply genSplit_first.
    change (String.length (String x sep)) with (S (String.length sep)).
    rewrite Nat.add_succ_r. cbn [skip]. apply skip_length.
  - cbn [strings.genSplit]. reflexivity.
Qed.

(** ** [strings.TrimSpace] *)

Ltac byte_facts :=
  unfold blank, graphic, notNewline, strings.asciiSpace, strings.space2,
    strings.space3, byte_in, byte_is in *;
  repeat match goal with
         | H : _ && _ = true |- _ => apply andb_true_iff in H; destruct H
         | H : _ || _ = true |- _ => apply orb_true_iff in H; destruct H
         | H : (_ =? _)%N = true |- _ => apply N.eqb_eq in H
         | H : (_ <=? _)%N = true |- _ => apply N.leb_le in H
         | H : negb _ = true |- _ => apply negb_true_iff in H
         | H : _ && _ = false |- _ => apply andb_false_iff in H; destruct H
         | H : (_ =? _)%N = false |- _ => apply N.eqb_neq in H
         | H : (_ <=? _)%N = false |- _ => apply N.leb_gt in H
         end;
  repeat match goal with
         | |- _ /\ _ => split
         | |- negb _ = true => apply negb_true_iff
         | |- negb _ = false => apply negb_false_iff
         | |- _ && _ = true => apply andb_true_iff; split
         | |- (_ <=? _)%N = true => apply N.leb_le
         | |- (_ =? _)%N = false => apply N.eqb_neq
         | |- _ && _ = false =>
             apply andb_false_iff; rewrite !N.leb_gt
         end;
  try lia.

Lemma asciiSpace_blank (a : ascii) : strings.asciiSpace a = true -> blank a = true.
Proof. intros H. byte_facts. Qed.

Lemma graphic_not_space (a : ascii) : graphic a = true -> strings.asciiSpace a = false.
Proof.
  intros H. destruct (strings.asciiSpace a) eqn:E; [|reflexivity].
  apply asciiSpace_blank in E. unfold blank in E. rewrite H in E. discriminate.
Qed.

Lemma space2_blank (a b : ascii) :
  strings.space2 a b = true -> blank a = true /\ blank b = true.
Proof. intros H. byte_facts. Qed.

Lemma space3_blank (a b c : ascii) :
  strings.space3 a b c = true -> blank a = true /\ blank b = true /\ blank c = true.
Proof. intros H. byte_facts. Qed.

Lemma graphic_neq (x c : ascii) :
  graphic x = true -> blank c = true -> Ascii.eqb c x = false.
Proof.
  intros Hx Hc. destruct (Ascii.eqb_spec c x) as [->|]; [|reflexivity].
  unfold blank in Hc. rewrite Hx in Hc. discriminate.
Qed.

Section TrimFront.

Variable p2 : ascii -> ascii -> bool.
Variable p3 : ascii -> ascii -> ascii -> bool.
Hypothesis p2_blank : forall a b, p2 a b = true -> blank a = true /\ blank b = true.
Hypothesis p3_blank : forall a b c,
  p3 a b c = true -> blank a = true /\ blank b = true /\ blank c = true.

(** What the scan drops is a prefix without printable bytes. *)
Lemma trimFront_bounded (n : nat) :
  forall s, String.length s <= n ->
  exists l, s = l ++ strings.trimFront p2 p3 s /\ all_bytes blank l = true.
Proof.
  induction n as [|n IH]; intros s Hn.
  - destruct s; [|simpl in Hn; lia]. now exists "".
  - destruct s as [|a r]; [now exists ""|]. simpl in Hn.
    cbn [strings.trimFront].
    destruct (strings.asciiSpace a) eqn:Ea.
    { destruct (IH r) as (l & El & Hl); [lia|].
      exists (String a l). simpl. rewrite <- El, Hl, (asciiSpace_blank _ Ea). auto. }
    destruct r as [|b r2]; [now exists ""|]. simpl in Hn.
    destruct (p2 a b) eqn:E2.
    { destruct (IH r2) as (l & El & Hl); [lia|].
      destruct (p2_blank _ _ E2) as [Ha Hb].
      exists (String a (String b l)). simpl. rewrite <- El, Hl, Ha, Hb. auto. }
    destruct r2 as [|c r3]; [now exists ""|]. simpl in Hn.
    destruct (p3 a b c) eqn:E3; [|now exists ""].
    destruct (IH r3) as (l & El & Hl); [lia|].
    destruct (p3_blank _ _ _ E3) as (Ha & Hb & Hc).
    exists (String a (String b (String c l))). simpl.
    rewrite <- El, Hl, Ha, Hb, Hc. auto.
Qed.

Lemma trimFront_dropped (s : string) :
  exists l, s = l ++ strings.trimFront p2 p3 s /\ all_bytes blank l = true.
Proof. apply (trimFront_bounded (String.length s)). lia. Qed.

(** The scan stops at a printable byte. *)
Lemma trimFront_graphic (a : ascii) (r : string) :
  graphic a = true ->
  strings.trimFront p2 p3 (String a r) = String a r.
Proof.
  intros Ha. cbn [strings.trimFront]. rewrite (graphic_not_space _ Ha).
  assert (Hnb : blank a = false) by (unfold blank; now rewrite Ha).
  destruct r as [|b r2]; [reflexivity|].
  destruct (p2 a b) eqn:E2.
  { apply p2_blank in E2 as [E2 _]. congruence. }
  destruct r2 as [|c r3]; [reflexivity|].
  destruct (p3 a b c) eqn:E3; [|reflexivity].
  apply p3_blank in E3 as (E3 & _). congruence.
Qed.

End TrimFront.

Lemma space2_rev_blank (a b : ascii) :
  strings.space2 b a = true -> blank a = true /\ blank b = true.
Proof. intros H%space2_blank. tauto. Qed.

Lemma space3_rev_blank (a b c : ascii) :
  strings.space3 c b a = true -> blank a = true /\ blank b = true /\ blank c = true.
Proof. intros H%space3_blank. tauto. Qed.

Lemma TrimLeft_dropped (s : string) :
  exists l, s = l ++ strings.TrimLeft s /\ all_bytes blank l = true.
Proof. apply trimFront_dropped; [apply space2_blank | apply space3_blank]. Qed.

Lemma TrimRight_dropped (s : string) :
  exists r, s = strings.TrimRight s ++ r /\ all_bytes blank r = true.
Proof.
  unfold strings.TrimRight.
  destruct (trimFront_dropped _ _ space2_rev_blank space3_rev_blank (reverse s))
    as (l & El & Hl).
  exists (reverse l). split; [|now rewrite all_bytes_reverse].
  rewrite <- reverse_append, <- El. symmetry. apply reverse_involutive.
Qed.

(** A blank prefix ends before the first printable byte. *)
Lemma cut_left (l s1 A R : string) (x : ascii) :
  l ++ s1 = A ++ String x R ->
  all_bytes blank l = true -> graphic x = true ->
  exists A', A = l ++ A' /\ s1 = A' ++ String x R.
Proof.
  revert A. induction l as [|c l IH]; intros A E Hl Hx.
  - exists A. auto.
  - simpl in Hl. apply andb_true_iff in Hl as [Hc Hl].
    destruct A as [|a A]; simpl in E; inversion E; subst.
    + unfold blank in Hc. rewrite Hx in Hc. discriminate.
    + destruct (IH A H1 Hl Hx) as (A' & -> & ->). now exists A'.
Qed.

(** A blank suffix starts after the last printable byte. *)
Lemma cut_right (X r C B : string) (x : ascii) :
  X ++ r = C ++ String x B ->
  all_bytes blank r = true -> graphic x = true ->
  exists B', B = B' ++ r /\ X = C ++ String x B'.
Proof.
  revert X. induction C as [|c C IH]; intros X E Hr Hx.
  - destruct X as [|y X]; simpl in E.
    + subst r. simpl in Hr. unfold blank in Hr. rewrite Hx in Hr. discriminate.
    + inversion E; subst. now exists X.
  - destruct X as [|y X]; simpl in E.
    + subst r. change (String c C ++ String x B) with (String c (C ++ String x B)) in Hr.
      assert (Hb : blank x = false) by (unfold blank; now rewrite Hx).
      simpl in Hr. rewrite all_bytes_append in Hr. simpl in Hr.
      rewrite Hb in Hr. simpl in Hr.
      rewrite !andb_false_r in Hr. discriminate.
    + inversion E; subst. destruct (IH X H1 Hr Hx) as (B' & -> & ->). now exists B'.
Qed.

Lemma TrimLeft_keep (A R : string) (x : ascii) :
  graphic x = true ->
  exists l A', A = l ++ A' /\ all_bytes blank l = true
               /\ strings.TrimLeft (A ++ String x R) = A' ++ String x R.
Proof.
  intros Hx. destruct (TrimLeft_dropped (A ++ String x R)) as (l & El & Hl).
  destruct (cut_left _ _ _ _ _ (eq_sym El) Hl Hx) as (A' & EA & ET).
  now exists l, A'.
Qed.

Lemma TrimRight_keep (C B : string) (x : ascii) :
  graphic x = true ->
  exists B' r, B = B' ++ r /\ all_bytes blank r = true
               /\ strings.TrimRight (C ++ String x B) = C ++ String x B'.
Proof.
  intros Hx. destruct (TrimRight_dropped (C ++ String x B)) as (r & Er & Hr).
  destruct (cut_right _ _ _ _ _ (eq_sym Er) Hr Hx) as (B' & EB & ET).
  now exists B', r.
Qed.

Lemma TrimLeft_graphic (x : ascii) (R : string) :
  graphic x = true -> strings.TrimLeft (String x R) = String x R.
Proof. apply trimFront_graphic; [apply space2_blank | apply space3_blank]. Qed.

Lemma Index_append_blank (T r : string) :
  all_bytes blank r = true ->
  strings.Index (T ++ r) "=>" = strings.Index T "=>".
Proof.
  intros Hr.
  assert (Hhd : strings.HasPrefix r ">" = false).
  { destruct r as [|c r]; [reflexivity|]. simpl in *.
    apply andb_true_iff in Hr as [Hc _].
    now rewrite (graphic_neq ">" c eq_refl Hc). }
  assert (Hnone : strings.Index r "=>" = None).
  { rewrite <- (append_nil_r r), Index_append_clear; [reflexivity|].
    apply clearOf_bytes. apply (all_bytes_impl blank); [|exact Hr].
    intros c Hc. now rewrite (graphic_neq "=" c eq_refl Hc). }
  induction T as [|c T IH]; [exact Hnone|].
  change (String c T ++ r) with (String c (T ++ r)).
  cbn [strings.Index]. rewrite IH.
  replace (strings.HasPrefix (String c (T ++ r)) "=>")
    with (strings.HasPrefix (String c T) "=>"); [reflexivity|].
  destruct T as [|d T]; simpl; [|reflexivity].
  destruct (Ascii.eqb c "="); simpl; [|reflexivity].
  destruct r as [|e r]; [reflexivity|]. simpl in Hhd.
  destruct (Ascii.eqb e ">"); [discriminate | reflexivity].
Qed.

(** Trimming neither removes nor creates an arrow. *)
Lemma Contains_TrimSpace (s : string) :
  strings.Contains (strings.TrimSpace s) "=>" = strings.Contains s "=>".
Proof.
  unfold strings.TrimSpace, strings.Contains.
  destruct (TrimLeft_dropped s) as (l & El & Hl).
  destruct (TrimRight_dropped (strings.TrimLeft s)) as (r & Er & Hr).
  rewrite El at 2. rewrite Index_append_clear.
  - rewrite Er at 2. rewrite (Index_append_blank _ _ Hr).
    now destruct (strings.Index _ "=>").
  - apply clearOf_bytes. apply (all_bytes_impl blank); [|exact Hl].
    intros c Hc. now rewrite (graphic_neq "=" c eq_refl Hc).
Qed.

(** ** The first line and the value token *)

Lemma byte_is_newline (c : ascii) : byte_is 10 c = Ascii.eqb c "010".
Proof. destruct c as [[] [] [] [] [] [] [] []]; reflexivity. Qed.

Lemma firstLine_firstPiece (s : string) : firstLine s = firstPiece s (String "010" "").
Proof.
  unfold firstPiece. induction s as [|c s IH]; [reflexivity|].
  cbn [firstLine strings.Index strings.HasPrefix]. rewrite byte_is_newline, andb_true_r.
  destruct (Ascii.eqb c "010"); [reflexivity|].
  rewrite IH. now destruct (strings.Index s (String "010" "")).
Qed.

Lemma firstLine_append (a b : string) :
  all_bytes notNewline a = true -> firstLine (a ++ b) = a ++ firstLine b.
Proof.
  induction a as [|c a IH]; simpl; [reflexivity|].
  intros [Hc Ha]%andb_true_iff. unfold notNewline in Hc.
  apply negb_true_iff in Hc. now rewrite Hc, IH.
Qed.

(** Lines 87-89 in terms of first pieces. *)
Lemma firstValue_pieces (s : string) :
  firstValue s
  = match strings.Index (strings.TrimSpace (firstLine s)) "=>" with
    | None => None
    | Some m =>
        Some (firstPiece
                (strings.TrimSpace
                   (firstPiece (skip (m + 2) (strings.TrimSpace (firstLine s))) "=>"))
                " ")
    end.
Proof.
  unfold firstValue. rewrite Split_0. cbn [mbind option_bind].
  rewrite <- firstLine_firstPiece, Split_1.
  destruct (strings.Index (strings.TrimSpace (firstLine s)) "=>") as [m|];
    [|reflexivity].
  cbn [mbind option_bind]. now rewrite Split_0.
Qed.

Lemma spaced_prefix (B r : string) : spaced (B ++ r) = true -> spaced B = true.
Proof. destruct B; simpl; auto. Qed.

Lemma spaced_no_gt (B : string) : spaced B = true -> strings.HasPrefix B ">" = false.
Proof.
  destruct B as [|c B]; simpl; [reflexivity|].
  intros ->%Ascii.eqb_eq. reflexivity.
Qed.

Lemma spaced_firstPiece_arrow (B : string) :
  spaced B = true -> spaced (firstPiece B "=>") = true.
Proof.
  destruct B as [|c B]; [reflexivity|]. simpl. intros ->%Ascii.eqb_eq.
  change (String " " B) with (" " ++ B).
  rewrite firstPiece_append; [reflexivity|]. now apply clearOf_bytes.
Qed.

Lemma firstPiece_spaced (B : string) : spaced B = true -> firstPiece B " " = "".
Proof.
  destruct B as [|c B]; [reflexivity|]. simpl. intros ->%Ascii.eqb_eq. reflexivity.
Qed.

(** The client reads the value of a row [labels => value rest] when the
    label part holds no arrow and no line break and the value is a non-empty
    run of printable bytes without an arrow. *)
Lemma firstValue_row (lab val rest : string) :
  all_bytes notNewline lab = true ->
  strings.Index lab "=>" = None ->
  val <> "" ->
  all_bytes graphic val = true ->
  strings.Index val "=>" = None ->
  firstValue (lab ++ " => " ++ val ++ " " ++ rest) = Some val.
Proof.
  intros Hnl Hlab Hne Hval Harrow.
  rewrite firstValue_pieces.
  (* the first line *)
  assert (Hline : firstLine (lab ++ " => " ++ val ++ " " ++ rest)
                  = (lab ++ " ") ++ String "=" ("> " ++ val ++ " " ++ firstLine rest)).
  { rewrite (firstLine_append lab) by exact Hnl. rewrite append_assoc.
    f_equal. rewrite (firstLine_append " => ") by reflexivity.
    simpl. do 4 f_equal. rewrite (firstLine_append val); [reflexivity|].
    apply (all_bytes_impl graphic); [|exact Hval]. intros c Hc. byte_facts. }
  rewrite Hline. clear Hline. set (tail := firstLine rest).
  (* trimming the line *)
  destruct (nonempty_last val Hne) as (v' & y & Ev).
  assert (Hy : graphic y = true).
  { rewrite Ev, all_bytes_append in Hval. simpl in Hval.
    apply andb_true_iff in Hval as [_ Hval]. now rewrite andb_true_r in Hval. }
  destruct (TrimLeft_keep (lab ++ " ") ("> " ++ val ++ " " ++ tail) "=" eq_refl)
    as (l & A' & EA & Hl & ETL).
  destruct (TrimRight_keep (A' ++ "=> " ++ v') (" " ++ tail) y Hy)
    as (B' & r & EB & Hr & ETR).
  assert (ET : strings.TrimSpace ((lab ++ " ") ++ String "=" ("> " ++ val ++ " " ++ tail))
               = A' ++ "=>" ++ " " ++ val ++ B').
  { unfold strings.TrimSpace. rewrite ETL.
    replace (A' ++ String "=" ("> " ++ val ++ " " ++ tail))
      with ((A' ++ "=> " ++ v') ++ String y (" " ++ tail)).
    - rewrite ETR, Ev. now string_norm.
    - rewrite Ev. now string_norm. }
  rewrite ET. clear ET ETL ETR.
  assert (HB' : spaced B' = true).
  { apply (spaced_prefix B' r). now rewrite <- EB. }
  (* the arrow of the row is the first one *)
  assert (Hclear : clearOf "=>" A' ("=>" ++ " " ++ val ++ B')).
  { apply (clearOf_suffix _ l). rewrite <- EA.
    apply clearOf_append.
    - apply clearOf_arrow; [exact Hlab | reflexivity].
    - simpl. auto. }
  rewrite (Index_append_clear _ _ _ Hclear).
  cbn [strings.Index strings.HasPrefix String.append Ascii.eqb Bool.eqb andb fmap
       option_fmap option_map].
  rewrite Nat.add_0_r, skip_append. cbn [skip String.append].
  (* the piece between the arrows *)
  assert (Hsecond : firstPiece (String " " (val ++ B')) "=>"
                    = " " ++ val ++ firstPiece B' "=>").
  { change (String " " (val ++ B')) with ((" " ++ val) ++ B').
    rewrite firstPiece_append; [now rewrite append_assoc|].
    apply clearOf_arrow; [|now apply spaced_no_gt].
    change (" " ++ val) with (String " " val).
    rewrite Index_cons by reflexivity. now rewrite Harrow. }
  rewrite Hsecond. clear Hsecond.
  pose proof (spaced_firstPiece_arrow B' HB') as HB2.
  set (B2 := firstPiece B' "=>") in *.
  (* trimming the piece *)
  destruct val as [|x v1]; [congruence|].
  assert (Hx : graphic x = true).
  { simpl in Hval. now apply andb_true_iff in Hval as [Hx _]. }
  destruct (TrimRight_keep v' B2 y Hy) as (B3 & r' & EB3 & Hr' & ETR).
  assert (ET : strings.TrimSpace (" " ++ String x v1 ++ B2) = String x v1 ++ B3).
  { unfold strings.TrimSpace.
    change (strings.TrimLeft (" " ++ String x v1 ++ B2))
      with (strings.TrimLeft (String x (v1 ++ B2))).
    rewrite (TrimLeft_graphic x _ Hx).
    change (String x (v1 ++ B2)) with (String x v1 ++ B2).
    rewrite Ev, append_assoc. simpl. rewrite ETR. now string_norm. }
  rewrite ET. clear ET.
  assert (HB3 : spaced B3 = true).
  { apply (spaced_prefix B3 r'). now rewrite <- EB3. }
  (* the first token of the piece *)
  rewrite firstPiece_append.
  - now rewrite (firstPiece_spaced _ HB3), append_nil_r.
  - apply clearOf_bytes. apply (all_bytes_impl graphic); [|exact Hval].
    intros c Hc. apply negb_true_iff.
    destruct (Ascii.eqb_spec c " ") as [->|]; [discriminate | reflexivity].
Qed.

(** ** Replies *)

Lemma firstValue_in_range (s : string) :
  is_Some (firstValue s) <-> strings.Contains (firstLine s) "=>" = true.
Proof.
  rewrite firstValue_pieces, <- Contains_TrimSpace. unfold strings.Contains.
  destruct (strings.Index (strings.TrimSpace (firstLine s)) "=>").
  - split; [reflexivity | eauto].
  - split; [intros [? [=]] | discriminate].
Qed.

Lemma tokenOf_skipped (r : queryReply) :
  skipped r = true -> tokenOf r = Some None.
Proof.
  unfold skipped, tokenOf. destruct (reply_res r) as [res|]; [|reflexivity].
  destruct (String.eqb (val_String res) ""); [reflexivity|]. simpl.
  now intros ->.
Qed.

Lemma skipped_nil (r : queryReply) : reply_res r = None -> skipped r = true.
Proof. unfold skipped. now intros ->. Qed.

Lemma tokenOf_wellFormed (r : queryReply) :
  wellFormed r = true -> is_Some (tokenOf r).
Proof.
  unfold wellFormed. destruct (reply_res r) as [res|] eqn:E.
  - intros [H|H]%orb_true_iff.
    + rewrite (tokenOf_skipped r H). eauto.
    + apply firstValue_in_range in H as [token H].
      unfold tokenOf. rewrite E, H.
      destruct (String.eqb (val_String res) ""); [eauto|].
      destruct (bool_decide (val_Type res <> ValVector)); eauto.
  - intros _. unfold tokenOf. rewrite E. eauto.
Qed.

Lemma tokenOf_token (r : queryReply) (res : Value) (token : string) :
  reply_res r = Some res -> val_String res <> "" -> val_Type res = ValVector ->
  firstValue (val_String res) = Some token ->
  tokenOf r = Some (Some token).
Proof.
  intros E Hs Ht Hv. unfold tokenOf. rewrite E, Hv.
  apply String.eqb_neq in Hs. rewrite Hs.
  rewrite bool_decide_false; [reflexivity|]. intros H. now apply H.
Qed.

Lemma vectorString_row (row : sample) (more : list sample) :
  exists rest,
    vectorString (row :: more)
    = labels row ++ " => " ++ value row ++ " " ++ rest.
Proof.
  unfold vectorString. destruct more as [|next more].
  - exists ("@" ++ stamp row). unfold sampleString. cbn. now string_norm.
  - exists ("@" ++ stamp row ++ String "010" ""
            ++ vectorString (next :: more)).
    change (sampleString <$> row :: next :: more)
      with (sampleString row :: (sampleString <$> next :: more)).
    change (sampleString <$> next :: more)
      with (sampleString next :: (sampleString <$> more)).
    cbn [strings.Join]. unfold vectorString, sampleString at 1.
    change (sampleString <$> next :: more)
      with (sampleString next :: (sampleString <$> more)).
    now string_norm.
Qed.

Lemma tokenOf_vector (r : queryReply) (row : sample) (more : list sample) :
  vectorOf r row more -> tokenOf r = Some (Some (value row)).
Proof.
  intros (res & E & Ht & Hs & Hrow).
  unfold readable in Hrow.
  repeat (apply andb_true_iff in Hrow as [Hrow ?]).
  repeat match goal with H : negb _ = true |- _ => apply negb_true_iff in H end.
  destruct (vectorString_row row more) as [rest Hrest].
  assert (Hv : firstValue (val_String res) = Some (value row)).
  { rewrite Hs, Hrest. apply firstValue_row; auto.
    - unfold strings.Contains in *.
      now destruct (strings.Index (labels row) "=>").
    - now apply String.eqb_neq.
    - unfold strings.Contains in *.
      now destruct (strings.Index (value row) "=>"). }
  apply (tokenOf_token r res); auto.
  rewrite Hs, Hrest. destruct (labels row); discriminate.
Qed.

Lemma skipped_cases (r : queryReply) :
  reply_res r = None
  \/ (exists res, reply_res r = Some res
                  /\ (val_String res = "" \/ val_Type res <> ValVector)) ->
  skipped r = true.
Proof.
  intros [E | (res & E & H)]; [now apply skipped_nil|].
  unfold skipped. rewrite E. apply orb_true_iff.
  destruct H as [-> | H]; [now left | right]. now apply bool_decide_eq_true.
Qed.

Lemma tokenOf_inv (r : queryReply) (token : string) :
  tokenOf r = Some (Some token) ->
  exists res, reply_res r = Some res /\ firstValue (val_String res) = Some token.
Proof.
  unfold tokenOf. destruct (reply_res r) as [res|]; [|discriminate].
  destruct (String.eqb (val_String res) ""); [discriminate|].
  destruct (bool_decide (val_Type res <> ValVector)); [discriminate|].
  destruct (firstValue (val_String res)) as [v|] eqn:Ev; [|discriminate].
  intros [= ->]. exists res. split; [reflexivity | exact Ev].
Qed.

(** ** Runs of the client *)

Section Runs.

Context {float64 : Type} (fzero : float64).
Variable parseFloat : string -> parseResult float64.
Context {Client : Type}.
Variable NewClient : apiConfig -> Client + error.
Context {Ctx World : Type}.
Variable Query : Client -> Ctx -> string -> World -> queryReply * World.

Abbreviation parsed token := (fst (ParseFloat fzero parseFloat token)).
Abbreviation body := (metricBody fzero parseFloat Query).
Abbreviation run := (NodeMetricsAvg fzero parseFloat NewClient Query).

Ltac run_body HQ :=
  unfold metricBody, tokenOf, afterReply, replyLog, when;
  unfold mbind, M_bind, bind, query, logf, mret, M_ret, ret, panic;
  fold logLine; cbn [world logged];
  rewrite HQ; cbn [world logged];
  match goal with
  | |- context [reply_res ?r] =>
      destruct r as [[?|] ? [?|]];
      cbn [reply_res reply_err reply_warnings]
  end;
  repeat match goal with
         | |- context [(0 <? length ?l)%nat] => destruct (0 <? length l)%nat
         | |- context [String.eqb (val_String ?v) ""] =>
             destruct (String.eqb (val_String v) "")
         | |- context [bool_decide ?P] => destruct (bool_decide P)
         | |- context [firstValue ?s] => destruct (firstValue s)
         end;
  cbn [world logged]; rewrite ?String.eqb_refl;
  rewrite <- ?app_assoc; reflexivity.

Lemma metricBody_cpu client ctx nodeName period nm st r w :
  Query client ctx (queryStr promCpuUsageAvg period nodeName) (world st) = (r, w) ->
  body client ctx nodeName period nm promCpuUsageAvg st
  = let st' := afterReply st w (queryStr promCpuUsageAvg period nodeName) r in
    match tokenOf r with
    | None => Panicked st'
    | Some None => Done nm st'
    | Some (Some token) =>
        Done {| Cpu := parsed token; Memory := Memory nm |} st'
    end.
Proof. intros HQ. run_body HQ. Qed.

Lemma metricBody_mem client ctx nodeName period nm st r w :
  Query client ctx (queryStr promMemUsageAvg period nodeName) (world st) = (r, w) ->
  body client ctx nodeName period nm promMemUsageAvg st
  = let st' := afterReply st w (queryStr promMemUsageAvg period nodeName) r in
    match tokenOf r with
    | None => Panicked st'
    | Some None => Done nm st'
    | Some (Some token) =>
        Done {| Cpu := Cpu nm; Memory := parsed token |} st'
    end.
Proof. intros HQ. run_body HQ. Qed.

Lemma run_failed p ctx nodeName period st e :
  NewClient (clientConfig p) = inr e ->
  run p ctx nodeName period st = Done (None, Some e) (afterStart p st).
Proof.
  intros HN. unfold NodeMetricsAvg.
  unfold mbind, M_bind, bind, logf. fold logLine. rewrite HN. reflexivity.
Qed.

(** A call whose API client is built: the two queries are sent in order,
    and the call ends with both fields or with the panic of the first
    reply that cannot be indexed. *)
Lemma run_queries p ctx nodeName period st client r1 w1 r2 w2 :
  NewClient (clientConfig p) = inl client ->
  Query client ctx (queryStr promCpuUsageAvg period nodeName) (world st) = (r1, w1) ->
  Query client ctx (queryStr promMemUsageAvg period nodeName) w1 = (r2, w2) ->
  run p ctx nodeName period st
  = let st1 := afterReply (afterStart p st) w1
                 (queryStr promCpuUsageAvg period nodeName) r1 in
    let st2 := afterReply st1 w2 (queryStr promMemUsageAvg period nodeName) r2 in
    match tokenOf r1, tokenOf r2 with
    | None, _ => Panicked st1
    | Some _, None => Panicked st2
    | Some _, Some _ =>
        Done (Some {| Cpu := fieldOf fzero parseFloat r1;
                      Memory := fieldOf fzero parseFloat r2 |}, None) st2
    end.
Proof.
  intros HN HQ1 HQ2. unfold NodeMetricsAvg.
  unfold mbind at 1, M_bind at 1, bind at 1, logf. fold logLine.
  fold (afterStart p st). rewrite HN.
  unfold mbind, M_bind, bind. cbn [forRange].
  unfold mbind, M_bind, bind.
  rewrite (metricBody_cpu client ctx nodeName period _ (afterStart p st) r1 w1 HQ1).
  unfold fieldOf. cbn zeta.
  destruct (tokenOf r1) as [[t1|]|]; [| |reflexivity].
  - rewrite (metricBody_mem client ctx nodeName period _
               (afterReply (afterStart p st) w1 _ r1) r2 w2 HQ2).
    cbn zeta. now destruct (tokenOf r2) as [[t2|]|].
  - rewrite (metricBody_mem client ctx nodeName period _
               (afterReply (afterStart p st) w1 _ r1) r2 w2 HQ2).
    cbn zeta. now destruct (tokenOf r2) as [[t2|]|].
Qed.


(** When both queries return a vector whose first row is
    [labels => value @timestamp], with a label part free of arrows and
    line breaks and a value made of printable characters, the call
    returns a record whose [Cpu] is the float parsed from the value of
    the CPU row and whose [Memory] is the float parsed from the value of
    the memory row, and a nil error.  The condition on the label part is
    needed: an arrow inside a label value is taken for the separator. *)
Theorem fields_are_parsed_values p ctx nodeName period st
    client r1 w1 r2 w2 row1 more1 row2 more2 :
  NewClient (clientConfig p) = inl client ->
  Query client ctx (queryStr promCpuUsageAvg period nodeName) (world st) = (r1, w1) ->
  Query client ctx (queryStr promMemUsageAvg period nodeName) w1 = (r2, w2) ->
  vectorOf r1 row1 more1 ->
  vectorOf r2 row2 more2 ->
  exists st',
    run p ctx nodeName period st
    = Done (Some {| Cpu := parsed (value row1); Memory := parsed (value row2) |},
            None) st'.
Proof.
  intros HN HQ1 HQ2 H1 H2.
  rewrite (run_queries _ _ _ _ _ _ _ _ _ _ HN HQ1 HQ2). cbn zeta.
  unfold fieldOf.
  rewrite (tokenOf_vector _ _ _ H1), (tokenOf_vector _ _ _ H2). eauto.
Qed.

Lemma fieldOf_skipped (r : queryReply) :
  skipped r = true -> fieldOf fzero parseFloat r = fzero.
Proof. intros H. unfold fieldOf. now rewrite (tokenOf_skipped r H). Qed.

(** C5. A query whose result is nil, renders to the empty string or is
    not a vector leaves its field at the zero value: [Cpu] for the first
    query, [Memory] for the second. *)
Theorem anomalous_result_leaves_zero p ctx nodeName period st client r1 w1 r2 w2 :
  let anomalous r :=
    reply_res r = None
    \/ (exists res, reply_res r = Some res
                    /\ (val_String res = "" \/ val_Type res <> ValVector)) in
  NewClient (clientConfig p) = inl client ->
  Query client ctx (queryStr promCpuUsageAvg period nodeName) (world st) = (r1, w1) ->
  Query client ctx (queryStr promMemUsageAvg period nodeName) w1 = (r2, w2) ->
  (anomalous r1 -> wellFormed r2 = true ->
   exists nm st', run p ctx nodeName period st = Done (Some nm, None) st'
                  /\ Cpu nm = fzero)
  /\ (wellFormed r1 = true -> anomalous r2 ->
      exists nm st', run p ctx nodeName period st = Done (Some nm, None) st'
                     /\ Memory nm = fzero)
  /\ (forall nm e st',
        run p ctx nodeName period st = Done (Some nm, e) st' ->
        (anomalous r1 -> Cpu nm = fzero) /\ (anomalous r2 -> Memory nm = fzero)).
Proof.
  intros anomalous HN HQ1 HQ2.
  pose proof (run_queries _ _ _ _ _ _ _ _ _ _ HN HQ1 HQ2) as Hrun.
  cbn zeta in Hrun.
  split; [|split].
  - intros Hskip%skipped_cases [t2 E2]%tokenOf_wellFormed.
    rewrite (tokenOf_skipped _ Hskip), E2, (fieldOf_skipped _ Hskip) in Hrun.
    eexists _, _. split; [exact Hrun | reflexivity].
  - intros [t1 E1]%tokenOf_wellFormed Hskip%skipped_cases.
    rewrite (tokenOf_skipped _ Hskip), E1, (fieldOf_skipped _ Hskip) in Hrun.
    eexists _, _. split; [exact Hrun | reflexivity].
  - intros nm e st' Hdone. rewrite Hdone in Hrun.
    destruct (tokenOf r1), (tokenOf r2); try discriminate.
    injection Hrun as -> _ _. cbn [Cpu Memory].
    split; intros Hskip%skipped_cases; now apply fieldOf_skipped.
Qed.

Lemma ParseFloat_syntax (token : string) :
  parseFloat token = ParseErrSyntax ->
  fst (ParseFloat fzero parseFloat token) = fzero
  /\ is_Some (snd (ParseFloat fzero parseFloat token)).
Proof. unfold ParseFloat. intros ->. split; [reflexivity | eauto]. Qed.

(** C6. When the token read from the first row of a vector is not a
    float ([ParseFloat] reports a syntax error), the field stays zero, the
    call still returns a nil error, and the error of [ParseFloat] is
    dropped: the final state holds the logger calls of the two replies
    and nothing about the token. *)
Theorem malformed_token_leaves_zero p ctx nodeName period st
    client r1 w1 r2 w2 res token :
  NewClient (clientConfig p) = inl client ->
  Query client ctx (queryStr promCpuUsageAvg period nodeName) (world st) = (r1, w1) ->
  Query client ctx (queryStr promMemUsageAvg period nodeName) w1 = (r2, w2) ->
  val_Type res = ValVector ->
  val_String res <> "" ->
  firstValue (val_String res) = Some token ->
  parseFloat token = ParseErrSyntax ->
  let st2 := afterReply
               (afterReply (afterStart p st) w1
                  (queryStr promCpuUsageAvg period nodeName) r1)
               w2 (queryStr promMemUsageAvg period nodeName) r2 in
  is_Some (snd (ParseFloat fzero parseFloat token))
  /\ (reply_res r1 = Some res -> wellFormed r2 = true ->
      run p ctx nodeName period st
      = Done (Some {| Cpu := fzero; Memory := fieldOf fzero parseFloat r2 |}, None) st2)
  /\ (reply_res r2 = Some res -> wellFormed r1 = true ->
      run p ctx nodeName period st
      = Done (Some {| Cpu := fieldOf fzero parseFloat r1; Memory := fzero |}, None) st2).
Proof.
  intros HN HQ1 HQ2 Ht Hs Hv Hparse st2.
  destruct (ParseFloat_syntax token Hparse) as [Hzero Herr].
  pose proof (run_queries _ _ _ _ _ _ _ _ _ _ HN HQ1 HQ2) as Hrun.
  cbn zeta in Hrun. fold st2 in Hrun.
  split; [exact Herr|].
  split; intros Hres Hother;
    pose proof (tokenOf_token _ _ _ Hres Hs Ht Hv) as Etok;
    destruct (tokenOf_wellFormed _ Hother) as [t Et]; rewrite Hrun, Etok, Et.
  - unfold fieldOf at 1. now rewrite Etok, Hzero.
  - unfold fieldOf at 2. now rewrite Etok, Hzero.
Qed.

(** C7, amended.  The constructor never fails: it stores the address
    and the options and returns a nil error.  An address that
    [api.NewClient] rejects shows at the call of [NodeMetricsAvg], which
    sends no query and returns a nil record with the error of
    [api.NewClient]. *)
Theorem bad_address_fails_the_call address conf e ctx nodeName period st :
  NewClient (clientConfig {| address := address; conf := conf |}) = inr e ->
  NewPrometheusMetricsClient address conf
  = (Some {| address := address; conf := conf |}, None)
  /\ run {| address := address; conf := conf |} ctx nodeName period st
     = Done (None, Some e) (afterStart {| address := address; conf := conf |} st)
  /\ world (afterStart {| address := address; conf := conf |} st) = world st.
Proof.
  intros HN. split; [reflexivity|]. split; [|reflexivity].
  now apply run_failed.
Qed.

Lemma fieldOf_cases (r : queryReply) :
  fieldOf fzero parseFloat r = fzero
  \/ exists res token,
       reply_res r = Some res /\ firstValue (val_String res) = Some token
       /\ fieldOf fzero parseFloat r = parsed token.
Proof.
  unfold fieldOf. destruct (tokenOf r) as [[token|]|] eqn:E; auto.
  right. destruct (tokenOf_inv _ _ E) as (res & ? & ?). eauto.
Qed.

(** C8. Each field of a returned record is the zero value or the float
    that [ParseFloat] returns for the value token read from the reply to
    the query of that field. *)
Theorem field_is_zero_or_parsed p ctx nodeName period st
    client r1 w1 r2 w2 nm e st' :
  NewClient (clientConfig p) = inl client ->
  Query client ctx (queryStr promCpuUsageAvg period nodeName) (world st) = (r1, w1) ->
  Query client ctx (queryStr promMemUsageAvg period nodeName) w1 = (r2, w2) ->
  run p ctx nodeName period st = Done (Some nm, e) st' ->
  (Cpu nm = fzero
   \/ exists res token,
        reply_res r1 = Some res /\ firstValue (val_String res) = Some token
        /\ Cpu nm = parsed token)
  /\ (Memory nm = fzero
      \/ exists res token,
           reply_res r2 = Some res /\ firstValue (val_String res) = Some token
           /\ Memory nm = parsed token).
Proof.
  intros HN HQ1 HQ2 Hrun.
  rewrite (run_queries _ _ _ _ _ _ _ _ _ _ HN HQ1 HQ2) in Hrun. cbn zeta in Hrun.
  destruct (tokenOf r1), (tokenOf r2); try discriminate.
  injection Hrun as <- _ _. cbn [Cpu Memory].
  split; apply fieldOf_cases.
Qed.

End Runs.

(** ** The query string *)

(** C1. The query of a metric is the metric name, an underscore, the
    period and the instance filter, with the node name between double
    quotes; for [cpu_usage_avg], [5m] and [worker-1] it is
    [cpu_usage_avg_5m{instance="worker-1"}], the quotes being byte 34. *)
Theorem queryStr_format :
  (forall metric period nodeName : string,
     queryStr metric period nodeName
     = metric ++ "_" ++ period ++ "{instance=" ++ dquote ++ nodeName ++ dquote ++ "}")
  /\ list_byte_of_string (queryStr "cpu_usage_avg" "5m" "worker-1")
     = (list_byte_of_string "cpu_usage_avg_5m{instance="
        ++ [Byte.x22] ++ list_byte_of_string "worker-1" ++ [Byte.x22; Byte.x7d])%list.
Proof.
  split; [|reflexivity].
  intros metric period nodeName. unfold queryStr.
  cbn [dquote String.append fmt.Sprintf fmt.render Ascii.eqb Bool.eqb orb andb].
  reflexivity.
Qed.

(** The two queries of a call are sent to the backend in this order. *)
Example queries_sent :
  match Demo.run Demo.goodAddress Demo.noData Demo.noData with
  | Done _ st => world st
  | Panicked st => world st
  end
  = ["cpu_usage_avg_5m{instance=" ++ dquote ++ "worker-1" ++ dquote ++ "}";
     "mem_usage_avg_5m{instance=" ++ dquote ++ "worker-1" ++ dquote ++ "}"].
Proof. reflexivity. Qed.

(** ** Indexing the pieces of the first row *)

(** C9. Lines 87-89 index without a bounds check.  [value[0]] is always
    in range; [rowValues[1]] is in range exactly when the first line of the
    rendering holds the separator ["=>"].  The non-empty rendering [abc]
    has no separator: reading it panics, and so does the call that
    receives it as a vector. *)
Theorem indexing_in_range_iff_arrow :
  (forall piece : string, is_Some (strings.Split (strings.TrimSpace piece) " " !! 0))
  /\ (forall rendering : string,
        is_Some (strings.Split (strings.TrimSpace (firstLine rendering)) "=>" !! 1)
        <-> strings.Contains (firstLine rendering) "=>" = true)
  /\ (forall rendering : string,
        is_Some (firstValue rendering)
        <-> strings.Contains (firstLine rendering) "=>" = true)
  /\ ("abc" <> "" /\ strings.Contains (firstLine "abc") "=>" = false
      /\ firstValue "abc" = None
      /\ exists st, Demo.run Demo.goodAddress
                      (Demo.ok (Demo.vector "abc")) Demo.noData = Panicked st).
Proof.
  split; [|split; [|split]].
  - intros piece. rewrite Split_0. eauto.
  - intros rendering. rewrite Split_1, <- Contains_TrimSpace.
    unfold strings.Contains.
    destruct (strings.Index (strings.TrimSpace (firstLine rendering)) "=>").
    + split; [reflexivity | eauto].
    + split; [intros [? [=]] | discriminate].
  - apply firstValue_in_range.
  - repeat split; [discriminate | eexists; reflexivity].
Qed.

(** ** The TLS switch *)

(** C10. Certificate verification is skipped exactly when the option
    [tls.insecureSkipVerify] is present with the value [true]; with any
    other value, or without the option, it stays on. *)
Theorem insecureSkipVerify_iff (p : PrometheusMetricsClient) :
  let skip := InsecureSkipVerify (TLSClientConfig (RoundTripper (clientConfig p))) in
  (skip = true <-> conf p !! "tls.insecureSkipVerify" = Some "true")
  /\ (conf p !! "tls.insecureSkipVerify" = None -> skip = false)
  /\ (forall v, conf p !! "tls.insecureSkipVerify" = Some v -> v <> "true" ->
                skip = false)
  /\ Address (clientConfig p) = address p.
Proof.
  cbn. unfold mapIndex.
  destruct (conf p !! "tls.insecureSkipVerify") as [v|] eqn:E; cbn.
  - split; [split|split; [|split]].
    + now intros ->%String.eqb_eq.
    + intros [= ->]. apply String.eqb_refl.
    + discriminate.
    + intros v' [= <-] Hv. now apply String.eqb_neq.
    + reflexivity.
  - split; [split|split; [|split]]; try discriminate; try reflexivity.
Qed.

Example insecureSkipVerify_on :
  InsecureSkipVerify (TLSClientConfig (RoundTripper (clientConfig
    {| address := "https://prometheus:9090";
       conf := {[ "tls.insecureSkipVerify" := "true" ]} |}))) = true.
Proof. reflexivity. Qed.

Example insecureSkipVerify_case_sensitive :
  InsecureSkipVerify (TLSClientConfig (RoundTripper (clientConfig
    {| address := "https://prometheus:9090";
       conf := {[ "tls.insecureSkipVerify" := "True" ]} |}))) = false.
Proof. reflexivity. Qed.

(** ** The properties on concrete calls *)


Lemma fields_are_parsed_values_demo :
  exists st',
    Demo.run Demo.goodAddress Demo.cpuReply Demo.memReply
    = Done (Some {| Cpu := (5 # 10)%Q; Memory := (1225 # 100)%Q |}, None) st'.
Proof.
  apply (fields_are_parsed_values 0%Q Demo.parseFloat Demo.NewClient
           (Demo.Query (Demo.answers Demo.cpuReply Demo.memReply))
           (Demo.client Demo.goodAddress) tt "worker-1" "5m" Demo.start
           tt Demo.cpuReply [Demo.cpuQuery] Demo.memReply [Demo.cpuQuery; Demo.memQuery]
           Demo.cpuRow [Demo.otherRow] Demo.memRow []);
    try reflexivity;
    (eexists; split; [reflexivity|]; split; [reflexivity|]; split; reflexivity).
Defined.

(** C4 as stated fails: the CPU query returns an error together with a
    vector, and the CPU field is set from that vector. *)
Lemma failed_query_with_result_sets_field :
  is_Some (reply_err Demo.failedWithResult)
  /\ exists nm st',
       Demo.run Demo.goodAddress Demo.failedWithResult Demo.noData
       = Done (Some nm, None) st'
       /\ Cpu nm = (5 # 10)%Q /\ Cpu nm <> 0%Q.
Proof.
  split; [eexists; reflexivity|].
  eexists _, _. split; [reflexivity|]. split; [reflexivity | discriminate].
Qed.

Lemma anomalous_result_leaves_zero_demo :
  exists nm st',
    Demo.run Demo.goodAddress
      (Demo.ok {| val_Type := ValMatrix; val_String := "{} => 0.5 @[1]" |})
      Demo.memReply
    = Done (Some nm, None) st'
    /\ Cpu nm = 0%Q.
Proof.
  apply (proj1 (anomalous_result_leaves_zero 0%Q Demo.parseFloat Demo.NewClient
                  (Demo.Query
                     (Demo.answers
                        (Demo.ok {| val_Type := ValMatrix;
                                    val_String := "{} => 0.5 @[1]" |})
                        Demo.memReply))
                  (Demo.client Demo.goodAddress) tt "worker-1" "5m" Demo.start
                  tt (Demo.ok {| val_Type := ValMatrix; val_String := "{} => 0.5 @[1]" |})
                  [Demo.cpuQuery] Demo.memReply [Demo.cpuQuery; Demo.memQuery]
                  eq_refl eq_refl eq_refl));
    [|reflexivity].
  right. eexists. split; [reflexivity|]. right. discriminate.
Defined.

Lemma malformed_token_leaves_zero_demo :
  Demo.run Demo.goodAddress Demo.garbled Demo.memReply
  = Done (Some {| Cpu := 0%Q; Memory := (1225 # 100)%Q |}, None)
      (afterReply
         (afterReply (afterStart (Demo.client Demo.goodAddress) Demo.start)
            [Demo.cpuQuery] Demo.cpuQuery Demo.garbled)
         [Demo.cpuQuery; Demo.memQuery] Demo.memQuery Demo.memReply).
Proof.
  apply (proj1 (proj2 (malformed_token_leaves_zero 0%Q Demo.parseFloat Demo.NewClient
                  (Demo.Query (Demo.answers Demo.garbled Demo.memReply))
                  (Demo.client Demo.goodAddress) tt "worker-1" "5m" Demo.start
                  tt Demo.garbled [Demo.cpuQuery] Demo.memReply
                  [Demo.cpuQuery; Demo.memQuery]
                  (Demo.vector "{} => abc @[1]") "abc"
                  eq_refl eq_refl eq_refl eq_refl
                  ltac:(discriminate) eq_refl eq_refl)));
    reflexivity.
Defined.

(** C7 as stated fails: [api.NewClient] rejects the address, and the
    constructor has returned a client and a nil error. *)
Lemma constructor_accepts_bad_address :
  (exists e, Demo.NewClient (clientConfig (Demo.client Demo.badAddress)) = inr e)
  /\ NewPrometheusMetricsClient Demo.badAddress ∅
     = (Some (Demo.client Demo.badAddress), None).
Proof. split; [eexists|]; reflexivity. Qed.

Lemma bad_address_fails_the_call_demo :
  NewPrometheusMetricsClient Demo.badAddress ∅
  = (Some (Demo.client Demo.badAddress), None)
  /\ Demo.run Demo.badAddress Demo.cpuReply Demo.memReply
     = Done (None, Some {| Error := "net/url: invalid control character in URL" |})
         (afterStart (Demo.client Demo.badAddress) Demo.start)
  /\ world (afterStart (Demo.client Demo.badAddress) Demo.start) = [].
Proof.
  apply (bad_address_fails_the_call 0%Q Demo.parseFloat Demo.NewClient
           (Demo.Query (Demo.answers Demo.cpuReply Demo.memReply))
           Demo.badAddress ∅
           {| Error := "net/url: invalid control character in URL" |}
           tt "worker-1" "5m" Demo.start).
  reflexivity.
Defined.

Lemma field_is_zero_or_parsed_demo :
  let nm := {| Cpu := (5 # 10)%Q; Memory := 0%Q |} in
  (Cpu nm = 0%Q
   \/ exists res token,
        reply_res Demo.cpuReply = Some res /\ firstValue (val_String res) = Some token
        /\ Cpu nm = fst (ParseFloat 0%Q Demo.parseFloat token))
  /\ (Memory nm = 0%Q
      \/ exists res token,
           reply_res Demo.garbled = Some res /\ firstValue (val_String res) = Some token
           /\ Memory nm = fst (ParseFloat 0%Q Demo.parseFloat token)).
Proof.
  apply (field_is_zero_or_parsed 0%Q Demo.parseFloat Demo.NewClient
           (Demo.Query (Demo.answers Demo.cpuReply Demo.garbled))
           (Demo.client Demo.goodAddress) tt "worker-1" "5m" Demo.start
           tt Demo.cpuReply [Demo.cpuQuery] Demo.garbled [Demo.cpuQuery; Demo.memQuery]
           {| Cpu := (5 # 10)%Q; Memory := 0%Q |} None
           (afterReply
              (afterReply (afterStart (Demo.client Demo.goodAddress) Demo.start)
                 [Demo.cpuQuery] Demo.cpuQuery Demo.cpuReply)
              [Demo.cpuQuery; Demo.memQuery] Demo.memQuery Demo.garbled));
    reflexivity.
Defined.

Lemma indexing_in_range_iff_arrow_demo :
  is_Some (firstValue (vectorString [Demo.cpuRow; Demo.otherRow])).
Proof.
  apply (proj1 (proj2 (proj2 indexing_in_range_iff_arrow))
           (vectorString [Demo.cpuRow; Demo.otherRow])).
  reflexivity.
Defined.

Lemma insecureSkipVerify_iff_demo :
  InsecureSkipVerify (TLSClientConfig (RoundTripper (clientConfig
    {| address := Demo.goodAddress;
       conf := {[ "tls.insecureSkipVerify" := "false" ]} |}))) = false.
Proof.
  apply (proj1 (proj2 (proj2 (insecureSkipVerify_iff
           {| address := Demo.goodAddress;
              conf := {[ "tls.insecureSkipVerify" := "false" ]} |}))) "false");
    [reflexivity | discriminate].
Defined.

(** * Further properties of the client *)

(** ** What a call returns *)

Lemma tokenOf_res (r r' : queryReply) :
  reply_res r = reply_res r' -> tokenOf r = tokenOf r'.
Proof. unfold tokenOf. now intros ->. Qed.

Lemma tokenOf_None (r : queryReply) :
  tokenOf r = None <-> wellFormed r = false.
Proof.
  split.
  - intros H. destruct (wellFormed r) eqn:E; [|reflexivity].
    destruct (tokenOf_wellFormed r E) as [t Ht]. congruence.
  - unfold wellFormed, tokenOf, skipped.
    destruct (reply_res r) as [res|]; [|discriminate].
    intros [Hs Hc]%orb_false_iff. apply orb_false_iff in Hs as [-> ->].
    destruct (firstValue (val_String res)) as [t|] eqn:Ev; [|reflexivity].
    assert (Hin : is_Some (firstValue (val_String res))) by eauto.
    apply firstValue_in_range in Hin. congruence.
Qed.

Section Calls.

Context {float64 : Type} (fzero : float64).
Variable parseFloat : string -> parseResult float64.
Context {Client : Type}.
Variable NewClient : apiConfig -> Client + error.
Context {Ctx World : Type}.
Variable Query : Client -> Ctx -> string -> World -> queryReply * World.

Abbreviation call := (NodeMetricsAvg fzero parseFloat NewClient Query).

(** Whatever the backend does, a call that returns hands back a record
    with a nil error, or a nil record with an error: never both, never
    neither. *)
Theorem record_or_error p ctx nodeName period st nm e st' :
  call p ctx nodeName period st = Done (nm, e) st' ->
  (is_Some nm /\ e = None /\ exists client, NewClient (clientConfig p) = inl client)
  \/ (nm = None /\ exists e', e = Some e' /\ NewClient (clientConfig p) = inr e').
Proof.
  intros Hcall.
  destruct (NewClient (clientConfig p)) as [client|e'] eqn:HN.
  - left.
    destruct (Query client ctx (queryStr promCpuUsageAvg period nodeName) (world st))
      as [r1 w1] eqn:HQ1.
    destruct (Query client ctx (queryStr promMemUsageAvg period nodeName) w1)
      as [r2 w2] eqn:HQ2.
    rewrite (run_queries _ _ _ _ _ _ _ _ _ _ _ _ _ _ HN HQ1 HQ2) in Hcall.
    cbn zeta in Hcall.
    destruct (tokenOf r1), (tokenOf r2); try discriminate.
    injection Hcall as <- <- _. eauto.
  - right. rewrite (run_failed _ _ _ _ _ _ _ _ _ _ HN) in Hcall.
    injection Hcall as <- <- _. eauto.
Qed.

(** With a client built, the call returns exactly when neither reply is a
    non-empty vector rendering without an arrow in its first line;
    otherwise it panics. *)
Theorem returns_iff_wellFormed p ctx nodeName period st client r1 w1 r2 w2 :
  NewClient (clientConfig p) = inl client ->
  Query client ctx (queryStr promCpuUsageAvg period nodeName) (world st) = (r1, w1) ->
  Query client ctx (queryStr promMemUsageAvg period nodeName) w1 = (r2, w2) ->
  is_Some (returned (call p ctx nodeName period st))
  <-> wellFormed r1 = true /\ wellFormed r2 = true.
Proof.
  intros HN HQ1 HQ2.
  rewrite (run_queries _ _ _ _ _ _ _ _ _ _ _ _ _ _ HN HQ1 HQ2). cbn zeta.
  pose proof (tokenOf_None r1) as H1. pose proof (tokenOf_None r2) as H2.
  destruct (tokenOf r1) as [t1|], (tokenOf r2) as [t2|]; cbn [returned].
  - split; [intros _|eauto].
    split; [destruct (wellFormed r1) | destruct (wellFormed r2)]; try reflexivity.
    + destruct H1 as [_ H1]. now specialize (H1 eq_refl).
    + destruct H2 as [_ H2]. now specialize (H2 eq_refl).
  - split; [intros [? [=]]|]. intros [_ E]. destruct H2 as [H2 _].
    rewrite (H2 eq_refl) in E. discriminate.
  - split; [intros [? [=]]|]. intros [E _]. destruct H1 as [H1 _].
    rewrite (H1 eq_refl) in E. discriminate.
  - split; [intros [? [=]]|]. intros [E _]. destruct H1 as [H1 _].
    rewrite (H1 eq_refl) in E. discriminate.
Qed.

(** The queries are sent one after the other, CPU first: the memory query
    meets the world that the CPU query has left.  When the CPU reply makes
    the call panic, the memory query is never sent. *)
Theorem queries_in_sequence p ctx nodeName period st client r1 w1 r2 w2 :
  NewClient (clientConfig p) = inl client ->
  Query client ctx (queryStr promCpuUsageAvg period nodeName) (world st) = (r1, w1) ->
  Query client ctx (queryStr promMemUsageAvg period nodeName) w1 = (r2, w2) ->
  world (finalState (call p ctx nodeName period st))
  = if wellFormed r1 then w2 else w1.
Proof.
  intros HN HQ1 HQ2.
  rewrite (run_queries _ _ _ _ _ _ _ _ _ _ _ _ _ _ HN HQ1 HQ2). cbn zeta.
  pose proof (tokenOf_None r1) as H1.
  destruct (tokenOf r1) as [t1|].
  - destruct (wellFormed r1).
    + now destruct (tokenOf r2).
    + destruct H1 as [_ H1]. now specialize (H1 eq_refl).
  - destruct H1 as [H1 _]. rewrite (H1 eq_refl). reflexivity.
Qed.

(** What the call returns depends on the results of the two replies only:
    the errors and the warnings that come with them change nothing, for any
    two backends and starting states. *)
Theorem result_ignores_errors_and_warnings
    (Query' : Client -> Ctx -> string -> World -> queryReply * World)
    p ctx nodeName period st st' client r1 w1 r2 w2 r1' w1' r2' w2' :
  NewClient (clientConfig p) = inl client ->
  Query client ctx (queryStr promCpuUsageAvg period nodeName) (world st) = (r1, w1) ->
  Query client ctx (queryStr promMemUsageAvg period nodeName) w1 = (r2, w2) ->
  Query' client ctx (queryStr promCpuUsageAvg period nodeName) (world st') = (r1', w1') ->
  Query' client ctx (queryStr promMemUsageAvg period nodeName) w1' = (r2', w2') ->
  reply_res r1 = reply_res r1' ->
  reply_res r2 = reply_res r2' ->
  returned (call p ctx nodeName period st)
  = returned (NodeMetricsAvg fzero parseFloat NewClient Query' p ctx nodeName period st').
Proof.
  intros HN HQ1 HQ2 HQ1' HQ2' E1 E2.
  rewrite (run_queries _ _ _ _ _ _ _ _ _ _ _ _ _ _ HN HQ1 HQ2).
  rewrite (run_queries _ _ _ _ _ _ _ _ _ _ _ _ _ _ HN HQ1' HQ2').
  cbn zeta. unfold fieldOf.
  rewrite (tokenOf_res _ _ E1), (tokenOf_res _ _ E2).
  now destruct (tokenOf r1'), (tokenOf r2').
Qed.

(** A token that is a number beyond the range of float64 does not leave
    the field at zero: [ParseFloat] returns an infinity with its error, the
    error is dropped and the infinity is stored. *)
Theorem range_error_stores_infinity p ctx nodeName period st
    client r1 w1 r2 w2 res token inf :
  NewClient (clientConfig p) = inl client ->
  Query client ctx (queryStr promCpuUsageAvg period nodeName) (world st) = (r1, w1) ->
  Query client ctx (queryStr promMemUsageAvg period nodeName) w1 = (r2, w2) ->
  val_Type res = ValVector ->
  val_String res <> "" ->
  firstValue (val_String res) = Some token ->
  parseFloat token = ParseErrRange inf ->
  is_Some (snd (ParseFloat fzero parseFloat token))
  /\ (reply_res r1 = Some res -> wellFormed r2 = true ->
      returned (call p ctx nodeName period st)
      = Some (Some {| Cpu := inf; Memory := fieldOf fzero parseFloat r2 |}, None))
  /\ (reply_res r2 = Some res -> wellFormed r1 = true ->
      returned (call p ctx nodeName period st)
      = Some (Some {| Cpu := fieldOf fzero parseFloat r1; Memory := inf |}, None)).
Proof.
  intros HN HQ1 HQ2 Ht Hs Hv Hparse.
  assert (Hinf : fst (ParseFloat fzero parseFloat token) = inf)
    by (unfold ParseFloat; now rewrite Hparse).
  split; [unfold ParseFloat; rewrite Hparse; eauto|].
  rewrite (run_queries _ _ _ _ _ _ _ _ _ _ _ _ _ _ HN HQ1 HQ2). cbn zeta.
  split; intros Hres Hother;
    pose proof (tokenOf_token _ _ _ Hres Hs Ht Hv) as Etok;
    destruct (tokenOf_wellFormed _ Hother) as [t Et]; rewrite Etok, Et;
    cbn [returned].
  - unfold fieldOf at 1. now rewrite Etok, Hinf.
  - unfold fieldOf at 2. now rewrite Etok, Hinf.
Qed.

End Calls.

(** ** What a call logs *)

Lemma replyLog_errors (q : string) (r : queryReply) :
  log_msg <$> List.filter (hasSeverity ErrorLog) (replyLog q r)
  = (fun e => "Error querying Prometheus: " ++ Error e) <$> option_list (reply_err r).
Proof.
  unfold replyLog.
  destruct (reply_err r), (0 <? length (reply_warnings r))%nat,
    (reply_res r) as [res|]; try destruct (String.eqb (val_String res) "");
    cbn; rewrite ?append_nil_r; reflexivity.
Qed.

Lemma replyLog_warnings (q : string) (r : queryReply) :
  log_msg <$> List.filter (hasSeverity WarningLog) (replyLog q r)
  = if noData r then ["Warning querying Prometheus: no data found for " ++ q] else [].
Proof.
  unfold replyLog, noData.
  destruct (reply_err r), (0 <? length (reply_warnings r))%nat,
    (reply_res r) as [res|]; try destruct (String.eqb (val_String res) "");
    cbn; rewrite ?append_nil_r; reflexivity.
Qed.

Lemma messagesSince_append {World : Type} (sev : severity) (st : state World)
    (w : World) (new : list logCall) :
  messagesSince sev st {| world := w; logged := (logged st ++ new)%list |}
  = log_msg <$> List.filter (hasSeverity sev) new.
Proof.
  unfold messagesSince. cbn [logged].
  rewrite drop_app_length. reflexivity.
Qed.

Section CallLogs.

Context {float64 : Type} (fzero : float64).
Variable parseFloat : string -> parseResult float64.
Context {Client : Type}.
Variable NewClient : apiConfig -> Client + error.
Context {Ctx World : Type}.
Variable Query : Client -> Ctx -> string -> World -> queryReply * World.

Abbreviation logged_call := (NodeMetricsAvg fzero parseFloat NewClient Query).

Lemma finalState_log p ctx nodeName period st client r1 w1 r2 w2 :
  NewClient (clientConfig p) = inl client ->
  Query client ctx (queryStr promCpuUsageAvg period nodeName) (world st) = (r1, w1) ->
  Query client ctx (queryStr promMemUsageAvg period nodeName) w1 = (r2, w2) ->
  exists w,
    finalState (logged_call p ctx nodeName period st)
    = {| world := w;
         logged := (logged st ++
           [logLine InfoLog 4 "Get node metrics from Prometheus: %s"
              [OpString (address p)]]
           ++ replyLog (queryStr promCpuUsageAvg period nodeName) r1
           ++ (if wellFormed r1
               then replyLog (queryStr promMemUsageAvg period nodeName) r2
               else []))%list |}.
Proof.
  intros HN HQ1 HQ2.
  rewrite (run_queries _ _ _ _ _ _ _ _ _ _ _ _ _ _ HN HQ1 HQ2). cbn zeta.
  pose proof (tokenOf_None r1) as H1.
  unfold afterReply, afterStart. cbn [world logged].
  destruct (tokenOf r1) as [t1|].
  - assert (E : wellFormed r1 = true).
    { destruct (wellFormed r1); [reflexivity|].
      destruct H1 as [_ H1]. now specialize (H1 eq_refl). }
    rewrite E. exists w2.
    destruct (tokenOf r2); cbn [finalState]; now rewrite <- !app_assoc.
  - destruct H1 as [H1 _]. rewrite (H1 eq_refl). exists w1.
    cbn [finalState]. now rewrite app_nil_r, <- !app_assoc.
Qed.

(** A call logs at error severity the errors of its queries and nothing
    else: one line per failed query with the text of the error, in the
    order of the queries. *)
Theorem errors_logged p ctx nodeName period st client r1 w1 r2 w2 :
  NewClient (clientConfig p) = inl client ->
  Query client ctx (queryStr promCpuUsageAvg period nodeName) (world st) = (r1, w1) ->
  Query client ctx (queryStr promMemUsageAvg period nodeName) w1 = (r2, w2) ->
  messagesSince ErrorLog st (finalState (logged_call p ctx nodeName period st))
  = ((fun e => ("Error querying Prometheus: " ++ Error e)%string)
       <$> (option_list (reply_err r1)
            ++ (if wellFormed r1 then option_list (reply_err r2) else [])))%list.
Proof.
  intros HN HQ1 HQ2.
  destruct (finalState_log _ _ _ _ _ _ _ _ _ _ HN HQ1 HQ2) as [w ->].
  rewrite messagesSince_append.
  change (?a :: ?l ++ ?k)%list with ([a] ++ l ++ k)%list.
  rewrite !List.filter_app, !fmap_app, replyLog_errors.
  destruct (wellFormed r1); [now rewrite replyLog_errors|].
  cbn. now rewrite !app_nil_r.
Qed.

(** A call warns about a query exactly when its result is nil or renders
    to the empty string, naming the query; a result of another type than a
    vector is skipped without a warning. *)
Theorem missing_data_warned p ctx nodeName period st client r1 w1 r2 w2 :
  NewClient (clientConfig p) = inl client ->
  Query client ctx (queryStr promCpuUsageAvg period nodeName) (world st) = (r1, w1) ->
  Query client ctx (queryStr promMemUsageAvg period nodeName) w1 = (r2, w2) ->
  messagesSince WarningLog st (finalState (logged_call p ctx nodeName period st))
  = ((if noData r1
      then [("Warning querying Prometheus: no data found for "
             ++ queryStr promCpuUsageAvg period nodeName)%string]
      else [])
     ++ (if wellFormed r1 && noData r2
         then [("Warning querying Prometheus: no data found for "
                ++ queryStr promMemUsageAvg period nodeName)%string]
         else []))%list.
Proof.
  intros HN HQ1 HQ2.
  destruct (finalState_log _ _ _ _ _ _ _ _ _ _ HN HQ1 HQ2) as [w ->].
  rewrite messagesSince_append.
  change (?a :: ?l ++ ?k)%list with ([a] ++ l ++ k)%list.
  rewrite !List.filter_app, !fmap_app, replyLog_warnings.
  destruct (wellFormed r1); [now rewrite replyLog_warnings | reflexivity].
Qed.

End CallLogs.

(** ** What lines 87-89 read *)

Lemma firstLine_clean (s : string) : all_bytes notNewline (firstLine s) = true.
Proof.
  induction s as [|c s IH]; [reflexivity|]. cbn [firstLine].
  destruct (byte_is 10 c) eqn:E; [reflexivity|].
  cbn [all_bytes]. unfold notNewline at 1. now rewrite E.
Qed.

Lemma firstLine_fixed (s : string) :
  all_bytes notNewline s = true -> firstLine s = s.
Proof.
  intros H. rewrite <- (append_nil_r s) at 1.
  rewrite (firstLine_append s "" H). apply append_nil_r.
Qed.

Lemma all_bytes_upto (p : ascii -> bool) (n : nat) (s : string) :
  all_bytes p s = true -> all_bytes p (upto n s) = true.
Proof.
  revert s. induction n as [|n IH]; intros [|c s]; simpl; auto.
  intros [Hc Hs]%andb_true_iff. rewrite Hc. simpl. auto.
Qed.

Lemma all_bytes_skip (p : ascii -> bool) (n : nat) (s : string) :
  all_bytes p s = true -> all_bytes p (skip n s) = true.
Proof.
  revert s. induction n as [|n IH]; intros [|c s]; simpl; auto.
  intros [Hc Hs]%andb_true_iff. auto.
Qed.

Lemma all_bytes_firstPiece (p : ascii -> bool) (s sep : string) :
  all_bytes p s = true -> all_bytes p (firstPiece s sep) = true.
Proof.
  intros H. unfold firstPiece.
  destruct (strings.Index s sep); [now apply all_bytes_upto | exact H].
Qed.

Lemma all_bytes_TrimSpace (p : ascii -> bool) (s : string) :
  all_bytes p s = true -> all_bytes p (strings.TrimSpace s) = true.
Proof.
  intros H. unfold strings.TrimSpace.
  destruct (TrimLeft_dropped s) as (l & El & _).
  destruct (TrimRight_dropped (strings.TrimLeft s)) as (r & Er & _).
  rewrite El, all_bytes_append in H. apply andb_true_iff in H as [_ H].
  rewrite Er, all_bytes_append in H. now apply andb_true_iff in H as [H _].
Qed.

Lemma HasPrefix_upto (n : nat) (s sep : string) :
  strings.HasPrefix (upto n s) sep = true -> strings.HasPrefix s sep = true.
Proof.
  revert n s. induction sep as [|x sep IH]; intros n s; [reflexivity|].
  destruct n as [|n], s as [|c s]; simpl; try discriminate.
  intros [Hc Hs]%andb_true_iff. rewrite Hc. simpl. eauto.
Qed.

(** The piece before the first occurrence of [sep] holds no [sep]. *)
Lemma Index_upto (s : string) (x : ascii) (sep : string) (m : nat) :
  strings.Index s (String x sep) = Some m ->
  strings.Index (upto m s) (String x sep) = None.
Proof.
  revert m. induction s as [|c s IH]; intros m; [discriminate|].
  cbn [strings.Index].
  destruct (strings.HasPrefix (String c s) (String x sep)) eqn:Hhd.
  - intros [= <-]. reflexivity.
  - destruct (strings.Index s (String x sep)) as [m'|] eqn:E; [|discriminate].
    intros [= <-]. cbn [upto]. rewrite Index_cons.
    + now rewrite (IH m' eq_refl).
    + destruct (strings.HasPrefix (String c (upto m' s)) (String x sep)) eqn:Hp;
        [|reflexivity].
      apply (HasPrefix_upto (S m') (String c s)) in Hp. congruence.
Qed.

Lemma Index_firstPiece (s : string) (x : ascii) (sep : string) :
  strings.Index (firstPiece s (String x sep)) (String x sep) = None.
Proof.
  unfold firstPiece.
  destruct (strings.Index s (String x sep)) as [m|] eqn:E;
    [now apply Index_upto | exact E].
Qed.

Lemma HasPrefix_append_l (a b sep : string) :
  strings.HasPrefix a sep = true -> strings.HasPrefix (a ++ b) sep = true.
Proof.
  revert a. induction sep as [|x sep IH]; intros a; [reflexivity|].
  destruct a as [|c a]; simpl; [discriminate|].
  intros [Hc Ha]%andb_true_iff. rewrite Hc. simpl. auto.
Qed.

Lemma Index_None_prefix (a b sep : string) :
  strings.Index (a ++ b) sep = None -> strings.Index a sep = None.
Proof.
  induction a as [|c a IH].
  - simpl. intros H. destruct sep as [|x sep]; [|reflexivity].
    destruct b; discriminate.
  - change (String c a ++ b) with (String c (a ++ b)).
    intros [Hhd Htl]%Index_None_cons. rewrite Index_cons.
    + now rewrite (IH Htl).
    + destruct (strings.HasPrefix (String c a) sep) eqn:Hp; [|reflexivity].
      apply (HasPrefix_append_l _ b) in Hp.
      change (String c a ++ b) with (String c (a ++ b)) in Hp. congruence.
Qed.

Lemma Index_None_suffix (a b sep : string) :
  strings.Index (a ++ b) sep = None -> strings.Index b sep = None.
Proof.
  induction a as [|c a IH]; [auto|].
  change (String c a ++ b) with (String c (a ++ b)).
  intros [_ Htl]%Index_None_cons. auto.
Qed.

Lemma Index_None_TrimSpace (s sep : string) :
  strings.Index s sep = None -> strings.Index (strings.TrimSpace s) sep = None.
Proof.
  intros H. unfold strings.TrimSpace.
  destruct (TrimLeft_dropped s) as (l & El & _).
  destruct (TrimRight_dropped (strings.TrimLeft s)) as (r & Er & _).
  rewrite El in H. apply Index_None_suffix in H.
  rewrite Er in H. now apply Index_None_prefix in H.
Qed.

Lemma upto_prefix (n : nat) (s : string) : exists rest, s = upto n s ++ rest.
Proof.
  revert s. induction n as [|n IH]; intros [|c s]; simpl; eauto.
  destruct (IH s) as [rest E]. exists rest. now rewrite <- E.
Qed.

Lemma firstPiece_prefix (s sep : string) : exists rest, s = firstPiece s sep ++ rest.
Proof.
  unfold firstPiece. destruct (strings.Index s sep).
  - apply upto_prefix.
  - exists "". now rewrite append_nil_r.
Qed.

Lemma firstLine_idempotent (s : string) : firstLine (firstLine s) = firstLine s.
Proof. apply firstLine_fixed, firstLine_clean. Qed.

(** Only the first line of a rendering is read: the rows after the
    first line break never change the token, nor whether reading panics. *)
Theorem firstValue_first_line :
  (forall rendering, firstValue rendering = firstValue (firstLine rendering))
  /\ (forall row rest,
        all_bytes notNewline row = true ->
        firstValue (row ++ String "010" rest) = firstValue row).
Proof.
  assert (H : forall rendering, firstValue rendering = firstValue (firstLine rendering)).
  { intros rendering. now rewrite !firstValue_pieces, firstLine_idempotent. }
  split; [exact H|].
  intros row rest Hrow. rewrite (H (row ++ String "010" rest)), (H row).
  rewrite (firstLine_append row _ Hrow). cbn [firstLine].
  change (byte_is 10 "010") with true. cbn iota.
  now rewrite append_nil_r, (firstLine_fixed row Hrow).
Qed.

(** The token that is handed to [ParseFloat] holds no space, no line
    break and no arrow, whatever the rendering. *)
Theorem token_shape (rendering token : string) :
  firstValue rendering = Some token ->
  all_bytes (fun c => negb (Ascii.eqb c " ")) token = true
  /\ all_bytes notNewline token = true
  /\ strings.Contains token "=>" = false.
Proof.
  rewrite firstValue_pieces.
  destruct (strings.Index (strings.TrimSpace (firstLine rendering)) "=>") as [m|];
    [|discriminate].
  intros [= <-].
  set (piece := firstPiece (skip (m + 2) (strings.TrimSpace (firstLine rendering))) "=>").
  split; [|split].
  - generalize (strings.TrimSpace piece). clear. intros s.
    unfold firstPiece. induction s as [|c s IH]; [reflexivity|].
    cbn [strings.Index strings.HasPrefix]. rewrite andb_true_r.
    destruct (Ascii.eqb c " ") eqn:E; [reflexivity|].
    destruct (strings.Index s " ") as [k|]; cbn in *; now rewrite E, IH.
  - apply all_bytes_firstPiece, all_bytes_TrimSpace. unfold piece.
    apply all_bytes_firstPiece, all_bytes_skip, all_bytes_TrimSpace, firstLine_clean.
  - assert (Hp : strings.Index (strings.TrimSpace piece) "=>" = None)
      by (apply Index_None_TrimSpace, Index_firstPiece).
    destruct (firstPiece_prefix (strings.TrimSpace piece) " ") as [rest E].
    rewrite E in Hp. apply Index_None_prefix in Hp.
    unfold strings.Contains. now rewrite Hp.
Qed.

(** ** Rows with any spacing *)

Lemma gapByte_facts (c : ascii) :
  gapByte c = true ->
  strings.asciiSpace c = true /\ notNewline c = true /\ Ascii.eqb c "=" = false.
Proof.
  unfold gapByte. intros [Hs Hn]%andb_true_iff. repeat split; auto.
  apply (graphic_neq "=" c eq_refl). now apply asciiSpace_blank.
Qed.

Lemma TrimLeft_gap (gap : string) (x : ascii) (R : string) :
  all_bytes gapByte gap = true -> graphic x = true ->
  strings.TrimLeft (gap ++ String x R) = String x R.
Proof.
  intros Hgap Hx. induction gap as [|c gap IH].
  - now apply TrimLeft_graphic.
  - simpl in Hgap. apply andb_true_iff in Hgap as [Hc Hgap].
    destruct (gapByte_facts c Hc) as (Hs & _ & _).
    change (String c gap ++ String x R) with (String c (gap ++ String x R)).
    unfold strings.TrimLeft in *. cbn [strings.trimFront]. rewrite Hs. auto.
Qed.

(** The token of the piece that follows the first arrow. *)
Lemma value_of_piece (gap val B : string) :
  all_bytes gapByte gap = true ->
  val <> "" -> all_bytes graphic val = true -> strings.Index val "=>" = None ->
  spaced B = true ->
  firstPiece (strings.TrimSpace (firstPiece (gap ++ val ++ B) "=>")) " " = val.
Proof.
  intros Hgap Hne Hval Harrow HB.
  assert (Hgv : strings.Index (gap ++ val) "=>" = None).
  { rewrite Index_append_clear, Harrow; [reflexivity|].
    apply clearOf_bytes. apply (all_bytes_impl gapByte); [|exact Hgap].
    intros c Hc. destruct (gapByte_facts c Hc) as (_ & _ & ->). reflexivity. }
  rewrite <- append_assoc, firstPiece_append, append_assoc
    by (apply clearOf_arrow; [exact Hgv | now apply spaced_no_gt]).
  pose proof (spaced_firstPiece_arrow B HB) as HB2.
  set (B2 := firstPiece B "=>") in *.
  destruct (nonempty_last val Hne) as (v' & y & Ev).
  assert (Hy : graphic y = true).
  { rewrite Ev, all_bytes_append in Hval. simpl in Hval.
    apply andb_true_iff in Hval as [_ Hval]. now rewrite andb_true_r in Hval. }
  destruct val as [|x v1]; [congruence|].
  assert (Hx : graphic x = true).
  { simpl in Hval. now apply andb_true_iff in Hval as [Hx _]. }
  destruct (TrimRight_keep v' B2 y Hy) as (B3 & r & EB3 & _ & ETR).
  assert (ET : strings.TrimSpace (gap ++ String x v1 ++ B2) = String x v1 ++ B3).
  { unfold strings.TrimSpace.
    change (String x v1 ++ B2) with (String x (v1 ++ B2)).
    rewrite (TrimLeft_gap gap x _ Hgap Hx).
    change (String x (v1 ++ B2)) with (String x v1 ++ B2).
    rewrite Ev, append_assoc. simpl. rewrite ETR. now string_norm. }
  rewrite ET.
  assert (HB3 : spaced B3 = true).
  { apply (spaced_prefix B3 r). now rewrite <- EB3. }
  rewrite firstPiece_append.
  - now rewrite (firstPiece_spaced _ HB3), append_nil_r.
  - apply clearOf_bytes. apply (all_bytes_impl graphic); [|exact Hval].
    intros c Hc. apply negb_true_iff.
    destruct (Ascii.eqb_spec c " ") as [->|]; [discriminate | reflexivity].
Qed.

Lemma firstLine_endsToken (post : string) :
  endsToken post = true -> spaced (firstLine post) = true.
Proof.
  destruct post as [|c post]; [reflexivity|]. cbn [endsToken firstLine].
  destruct (byte_is 10 c); [reflexivity|]. rewrite orb_false_r. auto.
Qed.

(** The value of the first row is read whether or not white space
    surrounds the arrow, and whether what follows the value is a timestamp
    after a space, the next row or nothing. *)
Theorem value_read_with_any_spacing (lab gap val post : string) :
  all_bytes notNewline lab = true ->
  strings.Index lab "=>" = None ->
  all_bytes gapByte gap = true ->
  val <> "" ->
  all_bytes graphic val = true ->
  strings.Index val "=>" = None ->
  endsToken post = true ->
  firstValue (lab ++ "=>" ++ gap ++ val ++ post) = Some val.
Proof.
  intros Hnl Hlab Hgap Hne Hval Harrow Hpost.
  rewrite firstValue_pieces.
  assert (Hline : firstLine (lab ++ "=>" ++ gap ++ val ++ post)
                  = lab ++ String "=" (">" ++ gap ++ val ++ firstLine post)).
  { replace (lab ++ "=>" ++ gap ++ val ++ post)
      with ((lab ++ "=>" ++ gap ++ val) ++ post) by now string_norm.
    rewrite firstLine_append; [now string_norm|].
    rewrite !all_bytes_append, Hnl. cbn.
    rewrite (all_bytes_impl gapByte notNewline gap), (all_bytes_impl graphic notNewline val);
      auto.
    - intros c Hc. byte_facts.
    - intros c Hc. now destruct (gapByte_facts c Hc) as (_ & ? & _). }
  rewrite Hline. clear Hline.
  pose proof (firstLine_endsToken post Hpost) as Htail.
  set (tail := firstLine post) in *.
  destruct (nonempty_last val Hne) as (v' & y & Ev).
  assert (Hy : graphic y = true).
  { rewrite Ev, all_bytes_append in Hval. simpl in Hval.
    apply andb_true_iff in Hval as [_ Hval]. now rewrite andb_true_r in Hval. }
  destruct (TrimLeft_keep lab (">" ++ gap ++ val ++ tail) "=" eq_refl)
    as (l & A' & EA & _ & ETL).
  destruct (TrimRight_keep (A' ++ "=>" ++ gap ++ v') tail y Hy)
    as (B' & r & EB & _ & ETR).
  assert (ET : strings.TrimSpace (lab ++ String "=" (">" ++ gap ++ val ++ tail))
               = A' ++ "=>" ++ gap ++ val ++ B').
  { unfold strings.TrimSpace. rewrite ETL.
    replace (A' ++ String "=" (">" ++ gap ++ val ++ tail))
      with ((A' ++ "=>" ++ gap ++ v') ++ String y tail).
    - rewrite ETR, Ev. now string_norm.
    - rewrite Ev. now string_norm. }
  rewrite ET. clear ET ETL ETR.
  assert (HB' : spaced B' = true).
  { apply (spaced_prefix B' r). now rewrite <- EB. }
  assert (Hclear : clearOf "=>" A' ("=>" ++ gap ++ val ++ B')).
  { apply (clearOf_suffix _ l). rewrite <- EA.
    apply clearOf_arrow; [exact Hlab | reflexivity]. }
  rewrite (Index_append_clear _ _ _ Hclear).
  cbn [strings.Index strings.HasPrefix String.append Ascii.eqb Bool.eqb andb fmap
       option_fmap option_map].
  rewrite Nat.add_0_r, skip_append. cbn [skip String.append].
  f_equal. now apply value_of_piece.
Qed.

Example tab_does_not_end_the_token :
  firstValue ("{} => 0.5" ++ String "009" "@[1]") = Some ("0.5" ++ String "009" "@[1]").
Proof. reflexivity. Qed.

(** ** The queries *)

Lemma append_cancel_r (a b c : string) : a ++ c = b ++ c -> a = b.
Proof.
  intros H. apply (f_equal reverse) in H. rewrite !reverse_append in H.
  apply String.app_inj in H. apply (f_equal reverse) in H.
  now rewrite !reverse_involutive in H.
Qed.

(** The CPU query and the memory query never coincide, and for one metric
    and period two node names never share a query: a backend can tell from
    the query alone which metric of which node is asked for. *)
Theorem queries_distinct :
  (forall period nodeName period' nodeName',
     queryStr promCpuUsageAvg period nodeName
     <> queryStr promMemUsageAvg period' nodeName')
  /\ (forall metric period nodeName nodeName',
        queryStr metric period nodeName = queryStr metric period nodeName' ->
        nodeName = nodeName').
Proof.
  split.
  - intros period nodeName period' nodeName'. unfold queryStr.
    cbn [dquote String.append fmt.Sprintf fmt.render Ascii.eqb Bool.eqb orb andb
         promCpuUsageAvg promMemUsageAvg].
    discriminate.
  - intros metric period nodeName nodeName'. unfold queryStr.
    cbn [dquote String.append fmt.Sprintf fmt.render Ascii.eqb Bool.eqb orb andb].
    intros H. apply String.app_inj in H. injection H as H.
    apply String.app_inj in H.
    repeat match type of H with String _ _ = String _ _ => injection H as H end.
    now apply (append_cancel_r _ _ (String "034" "}")).
Qed.

(** ** [strings.Split] *)

Lemma HasPrefix_split (s sep : string) :
  strings.HasPrefix s sep = true -> s = sep ++ skip (String.length sep) s.
Proof.
  revert s. induction sep as [|x sep IH]; intros s; [reflexivity|].
  destruct s as [|c s]; simpl; [discriminate|].
  intros [Hc Hs]%andb_true_iff. apply Ascii.eqb_eq in Hc as ->.
  now rewrite <- (IH s Hs).
Qed.

Lemma Index_split (s sep : string) (m : nat) :
  strings.Index s sep = Some m ->
  s = upto m s ++ sep ++ skip (m + String.length sep) s.
Proof.
  revert m. induction s as [|c s IH]; intros m.
  - cbn [strings.Index]. destruct (strings.HasPrefix "" sep) eqn:Hhd; [|discriminate].
    intros [= <-]. now apply HasPrefix_split.
  - cbn [strings.Index].
    destruct (strings.HasPrefix (String c s) sep) eqn:Hhd.
    + intros [= <-]. now apply HasPrefix_split.
    + destruct (strings.Index s sep) as [m'|]; [|discriminate].
      intros [= <-]. cbn [upto Nat.add skip String.append]. f_equal. now apply IH.
Qed.

Lemma Join_cons (a b : string) (l : list string) (sep : string) :
  strings.Join (a :: b :: l) sep = a ++ sep ++ strings.Join (b :: l) sep.
Proof. reflexivity. Qed.

Lemma genSplit_rounds (k : nat) (x : ascii) (sep : string) :
  forall s, String.length s <= k ->
  let pieces := strings.genSplit (strings.countLoop k s (String x sep)) s (String x sep) in
  strings.Join pieces (String x sep) = s
  /\ length pieces = S (strings.countLoop k s (String x sep))
  /\ Forall (fun piece => strings.Contains piece (String x sep) = false) pieces.
Proof.
  induction k as [|k IH]; intros s Hk.
  - destruct s; [|simpl in Hk; lia]. cbn. repeat split. now constructor.
  - cbn [strings.countLoop].
    destruct (strings.Index s (String x sep)) as [m|] eqn:E.
    + cbn [strings.genSplit]. rewrite E.
      set (rest := skip (m + String.length (String x sep)) s).
      assert (Hrest : String.length rest <= k).
      { unfold rest. destruct s as [|c s]; [discriminate|]. simpl in Hk.
        change (String.length (String x sep)) with (S (String.length sep)).
        rewrite Nat.add_succ_r. cbn [skip].
        pose proof (skip_length (m + String.length sep) s). lia. }
      destruct (IH rest Hrest) as (HJ & HL & HF).
      split; [|split].
      * destruct (strings.genSplit _ rest (String x sep)) as [|y l] eqn:EG;
          [discriminate|].
        rewrite Join_cons, HJ. symmetry. now apply Index_split.
      * cbn [length]. now rewrite HL.
      * constructor; [|exact HF].
        unfold strings.Contains. now rewrite (Index_upto _ _ _ _ E).
    + cbn. repeat split. constructor; [|constructor].
      unfold strings.Contains. now rewrite E.
Qed.

(** Splitting on a non-empty separator loses nothing: the pieces joined by
    the separator give the string back, there is one piece more than
    [strings.Count] counts occurrences, and no piece holds the separator. *)
Theorem Split_Join (s : string) (x : ascii) (sep : string) :
  strings.Join (strings.Split s (String x sep)) (String x sep) = s
  /\ length (strings.Split s (String x sep)) = S (strings.Count s (String x sep))
  /\ Forall (fun piece => strings.Contains piece (String x sep) = false)
       (strings.Split s (String x sep)).
Proof. apply genSplit_rounds. lia. Qed.

(** ** [strings.TrimSpace] *)

Section LeadsSpace.

Variable p2 : ascii -> ascii -> bool.
Variable p3 : ascii -> ascii -> ascii -> bool.

Lemma trimFront_fixed (s : string) :
  leadsSpace p2 p3 s = false -> strings.trimFront p2 p3 s = s.
Proof.
  destruct s as [|a [|b [|c r]]]; cbn [leadsSpace strings.trimFront];
    try reflexivity.
  - intros [-> _]%orb_false_iff. reflexivity.
  - intros [-> [-> _]%orb_false_iff]%orb_false_iff. reflexivity.
  - intros [-> [-> ->]%orb_false_iff]%orb_false_iff. reflexivity.
Qed.

Lemma trimFront_clear_bounded (n : nat) :
  forall s, String.length s <= n ->
  leadsSpace p2 p3 (strings.trimFront p2 p3 s) = false.
Proof.
  induction n as [|n IH]; intros s Hn.
  - destruct s; [reflexivity | simpl in Hn; lia].
  - destruct s as [|a r]; [reflexivity|]. simpl in Hn.
    cbn [strings.trimFront].
    destruct (strings.asciiSpace a) eqn:Ea; [apply IH; lia|].
    destruct r as [|b r2]; [cbn; now rewrite Ea|]. simpl in Hn.
    destruct (p2 a b) eqn:E2; [apply IH; lia|].
    destruct r2 as [|c r3]; [cbn; now rewrite Ea, E2|]. simpl in Hn.
    destruct (p3 a b c) eqn:E3; [apply IH; lia|].
    cbn. now rewrite Ea, E2, E3.
Qed.

Lemma trimFront_clear (s : string) :
  leadsSpace p2 p3 (strings.trimFront p2 p3 s) = false.
Proof. apply (trimFront_clear_bounded (String.length s)). lia. Qed.

Lemma leadsSpace_prefix (u r : string) :
  leadsSpace p2 p3 (u ++ r) = false -> leadsSpace p2 p3 u = false.
Proof.
  destruct u as [|a [|b [|c u]]]; cbn [leadsSpace String.append]; try reflexivity.
  - intros [-> _]%orb_false_iff. reflexivity.
  - intros [-> H]%orb_false_iff. cbn.
    destruct r; [exact H|]. now apply orb_false_iff in H as [-> _].
  - auto.
Qed.

End LeadsSpace.

(** [TrimSpace] takes bytes away from the two ends only, none of them
    printable; what is left neither starts nor ends with white space, and
    trimming it again changes nothing. *)
Theorem TrimSpace_trims (s : string) :
  (exists l r, s = l ++ strings.TrimSpace s ++ r
               /\ all_bytes blank l = true /\ all_bytes blank r = true)
  /\ startsWithSpace (strings.TrimSpace s) = false
  /\ endsWithSpace (strings.TrimSpace s) = false
  /\ strings.TrimSpace (strings.TrimSpace s) = strings.TrimSpace s.
Proof.
  assert (Hend : forall t, endsWithSpace (strings.TrimRight t) = false).
  { intros t. unfold endsWithSpace, strings.TrimRight.
    rewrite reverse_involutive. apply trimFront_clear. }
  assert (Hstart : startsWithSpace (strings.TrimSpace s) = false).
  { unfold strings.TrimSpace.
    destruct (TrimRight_dropped (strings.TrimLeft s)) as (r & Er & _).
    apply (leadsSpace_prefix _ _ _ r). rewrite <- Er. apply trimFront_clear. }
  split; [|split; [exact Hstart|split; [apply Hend|]]].
  - destruct (TrimLeft_dropped s) as (l & El & Hl).
    destruct (TrimRight_dropped (strings.TrimLeft s)) as (r & Er & Hr).
    exists l, r. split; [|auto]. unfold strings.TrimSpace.
    now rewrite <- Er.
  - unfold strings.TrimSpace at 1.
    unfold strings.TrimLeft at 1. rewrite (trimFront_fixed _ _ _ Hstart).
    unfold strings.TrimRight at 1. rewrite trimFront_fixed; [apply reverse_involutive|].
    apply Hend.
Qed.

(** ** The options *)

(** The only option that a call reads is [tls.insecureSkipVerify]:
    setting any other key changes neither the configuration of the API
    client nor anything the call does. *)
Theorem other_options_ignored {float64 Client Ctx World : Type} (fzero : float64)
    (parseFloat : string -> parseResult float64)
    (NewClient : apiConfig -> Client + error)
    (Query : Client -> Ctx -> string -> World -> queryReply * World)
    (addr : string) (options : gmap string string) (key v : string)
    ctx nodeName period st :
  key <> "tls.insecureSkipVerify" ->
  clientConfig {| address := addr; conf := <[key := v]> options |}
  = clientConfig {| address := addr; conf := options |}
  /\ NodeMetricsAvg fzero parseFloat NewClient Query
       {| address := addr; conf := <[key := v]> options |} ctx nodeName period st
     = NodeMetricsAvg fzero parseFloat NewClient Query
         {| address := addr; conf := options |} ctx nodeName period st.
Proof.
  intros Hkey.
  assert (E : clientConfig {| address := addr; conf := <[key := v]> options |}
              = clientConfig {| address := addr; conf := options |}).
  { unfold clientConfig, mapIndex. cbn [conf address].
    now rewrite lookup_insert_ne. }
  split; [exact E|]. unfold NodeMetricsAvg. now rewrite E.
Qed.

(** ** The further properties on concrete calls *)

Lemma record_or_error_demo :
  (is_Some (Some {| Cpu := (5 # 10)%Q; Memory := 0%Q |}) /\ @None error = None
   /\ exists client,
        Demo.NewClient (clientConfig (Demo.client Demo.goodAddress)) = inl client)
  \/ (Some {| Cpu := (5 # 10)%Q; Memory := 0%Q |} = None
      /\ exists e', @None error = Some e'
                    /\ Demo.NewClient (clientConfig (Demo.client Demo.goodAddress))
                       = inr e').
Proof.
  apply (record_or_error 0%Q Demo.parseFloat Demo.NewClient
           (Demo.Query (Demo.answers Demo.cpuReply Demo.garbled))
           (Demo.client Demo.goodAddress) tt "worker-1" "5m" Demo.start
           (Some {| Cpu := (5 # 10)%Q; Memory := 0%Q |}) None
           (afterReply
              (afterReply (afterStart (Demo.client Demo.goodAddress) Demo.start)
                 [Demo.cpuQuery] Demo.cpuQuery Demo.cpuReply)
              [Demo.cpuQuery; Demo.memQuery] Demo.memQuery Demo.garbled)).
  reflexivity.
Defined.

Lemma returns_iff_wellFormed_demo :
  is_Some (returned (Demo.run Demo.goodAddress Demo.cpuReply Demo.garbled)).
Proof.
  apply (proj2 (returns_iff_wellFormed 0%Q Demo.parseFloat Demo.NewClient
                  (Demo.Query (Demo.answers Demo.cpuReply Demo.garbled))
                  (Demo.client Demo.goodAddress) tt "worker-1" "5m" Demo.start
                  tt Demo.cpuReply [Demo.cpuQuery] Demo.garbled
                  [Demo.cpuQuery; Demo.memQuery] eq_refl eq_refl eq_refl)).
  split; reflexivity.
Defined.

(** A CPU reply without an arrow: the call panics and only the CPU query
    has reached the backend. *)
Lemma queries_in_sequence_demo :
  world (finalState (Demo.run Demo.goodAddress (Demo.ok (Demo.vector "abc"))
                       Demo.memReply))
  = [Demo.cpuQuery].
Proof.
  apply (queries_in_sequence 0%Q Demo.parseFloat Demo.NewClient
           (Demo.Query (Demo.answers (Demo.ok (Demo.vector "abc")) Demo.memReply))
           (Demo.client Demo.goodAddress) tt "worker-1" "5m" Demo.start
           tt (Demo.ok (Demo.vector "abc")) [Demo.cpuQuery] Demo.memReply
           [Demo.cpuQuery; Demo.memQuery]);
    reflexivity.
Defined.

(** The same vector with and without an error. *)
Lemma result_ignores_errors_and_warnings_demo :
  returned (Demo.run Demo.goodAddress Demo.failedWithResult Demo.memReply)
  = returned (Demo.run Demo.goodAddress (Demo.ok (Demo.vector "{} => 0.5 @[1]"))
                Demo.memReply).
Proof.
  apply (result_ignores_errors_and_warnings 0%Q Demo.parseFloat Demo.NewClient
           (Demo.Query (Demo.answers Demo.failedWithResult Demo.memReply))
           (Demo.Query (Demo.answers (Demo.ok (Demo.vector "{} => 0.5 @[1]"))
                          Demo.memReply))
           (Demo.client Demo.goodAddress) tt "worker-1" "5m" Demo.start Demo.start
           tt Demo.failedWithResult [Demo.cpuQuery] Demo.memReply
           [Demo.cpuQuery; Demo.memQuery]
           (Demo.ok (Demo.vector "{} => 0.5 @[1]")) [Demo.cpuQuery] Demo.memReply
           [Demo.cpuQuery; Demo.memQuery]);
    reflexivity.
Defined.

Lemma range_error_stores_infinity_demo :
  returned (NodeMetricsAvg (DemoRange.Finite 0) DemoRange.parseFloat Demo.NewClient
              (Demo.Query (Demo.answers DemoRange.tooLarge Demo.noData))
              (Demo.client Demo.goodAddress) tt "worker-1" "5m" Demo.start)
  = Some (Some {| Cpu := DemoRange.PlusInf; Memory := DemoRange.Finite 0 |}, None).
Proof.
  apply (proj1 (proj2 (range_error_stores_infinity (DemoRange.Finite 0)
                  DemoRange.parseFloat Demo.NewClient
                  (Demo.Query (Demo.answers DemoRange.tooLarge Demo.noData))
                  (Demo.client Demo.goodAddress) tt "worker-1" "5m" Demo.start
                  tt DemoRange.tooLarge [Demo.cpuQuery] Demo.noData
                  [Demo.cpuQuery; Demo.memQuery]
                  (Demo.vector "{} => 1e999 @[1]") "1e999" DemoRange.PlusInf
                  eq_refl eq_refl eq_refl eq_refl
                  ltac:(discriminate) eq_refl eq_refl)));
    reflexivity.
Defined.

Lemma errors_logged_demo :
  messagesSince ErrorLog Demo.start
    (finalState (Demo.run Demo.goodAddress Demo.failedWithResult
                   (Demo.failed "context deadline exceeded")))
  = ["Error querying Prometheus: bad_response: invalid character";
     "Error querying Prometheus: context deadline exceeded"].
Proof.
  apply (errors_logged 0%Q Demo.parseFloat Demo.NewClient
           (Demo.Query (Demo.answers Demo.failedWithResult
                          (Demo.failed "context deadline exceeded")))
           (Demo.client Demo.goodAddress) tt "worker-1" "5m" Demo.start
           tt Demo.failedWithResult [Demo.cpuQuery]
           (Demo.failed "context deadline exceeded") [Demo.cpuQuery; Demo.memQuery]);
    reflexivity.
Defined.

(** A matrix for the CPU query and nothing for the memory query: one
    warning, for the memory query. *)
Lemma missing_data_warned_demo :
  messagesSince WarningLog Demo.start
    (finalState (Demo.run Demo.goodAddress
                   (Demo.ok {| val_Type := ValMatrix; val_String := "{} => 0.5 @[1]" |})
                   Demo.noData))
  = ["Warning querying Prometheus: no data found for " ++ Demo.memQuery].
Proof.
  apply (missing_data_warned 0%Q Demo.parseFloat Demo.NewClient
           (Demo.Query
              (Demo.answers
                 (Demo.ok {| val_Type := ValMatrix; val_String := "{} => 0.5 @[1]" |})
                 Demo.noData))
           (Demo.client Demo.goodAddress) tt "worker-1" "5m" Demo.start
           tt (Demo.ok {| val_Type := ValMatrix; val_String := "{} => 0.5 @[1]" |})
           [Demo.cpuQuery] Demo.noData [Demo.cpuQuery; Demo.memQuery]);
    reflexivity.
Defined.

Lemma firstValue_first_line_demo :
  firstValue (sampleString Demo.cpuRow ++ String "010" (sampleString Demo.otherRow))
  = firstValue (sampleString Demo.cpuRow).
Proof.
  apply (proj2 firstValue_first_line (sampleString Demo.cpuRow)
           (sampleString Demo.otherRow)).
  reflexivity.
Defined.

Lemma token_shape_demo :
  all_bytes (fun c => negb (Ascii.eqb c " ")) "b}" = true
  /\ all_bytes notNewline "b}" = true
  /\ strings.Contains "b}" "=>" = false.
Proof. apply (token_shape "{job=a=>b} => 0.5 @[1]" "b}"). reflexivity. Defined.

(** No space around the arrow and no timestamp. *)
Lemma value_read_with_any_spacing_demo :
  firstValue ("{}=>0.5" ++ String "010" "{}=>0.75") = Some "0.5".
Proof.
  apply (value_read_with_any_spacing "{}" "" "0.5" (String "010" "{}=>0.75"));
    try reflexivity.
  discriminate.
Defined.

Lemma queries_distinct_demo : "worker-1" = "worker-1".
Proof.
  apply (proj2 queries_distinct "cpu_usage_avg" "5m" "worker-1" "worker-1").
  reflexivity.
Defined.

Lemma other_options_ignored_demo :
  clientConfig {| address := Demo.goodAddress;
                  conf := <["timeout" := "5s"]> {[ "tls.insecureSkipVerify" := "true" ]} |}
  = clientConfig {| address := Demo.goodAddress;
                    conf := {[ "tls.insecureSkipVerify" := "true" ]} |}.
Proof.
  apply (proj1 (other_options_ignored 0%Q Demo.parseFloat Demo.NewClient
                  (Demo.Query (Demo.answers Demo.cpuReply Demo.memReply))
                  Demo.goodAddress {[ "tls.insecureSkipVerify" := "true" ]}
                  "timeout" "5s" tt "worker-1" "5m" Demo.start
                  ltac:(discriminate))).
Defined.

(** * Replies on which the client departs from the spec *)


(** C3, at a sample the code misreads.  The CPU query returns the valid
    sample [cpu_usage_avg_5m{instance="worker-1", job="a=> 7 "} => 0.5 @[...]].
    Line 88 cuts the row at the arrow inside the label value, line 89 takes
    the token [7], and the call returns [Cpu = 7], while the value of the
    sample parses to 0.5. *)
Theorem arrow_in_label_value_misread :
  val_String (Demo.vector (vectorString [DemoArrow.row]))
  = "cpu_usage_avg_5m{instance=" ++ dquote ++ "worker-1" ++ dquote
    ++ ", job=" ++ dquote ++ "a=> 7 " ++ dquote ++ "} => 0.5 @[1700000000.123]"
  /\ firstValue (vectorString [DemoArrow.row]) = Some "7"
  /\ returned (Demo.run Demo.goodAddress DemoArrow.reply Demo.memReply)
     = Some (Some {| Cpu := (7 # 1)%Q; Memory := (1225 # 100)%Q |}, None)
  /\ fst (ParseFloat 0%Q Demo.parseFloat (value DemoArrow.row)) = (5 # 10)%Q
  /\ (7 # 1)%Q <> (5 # 10)%Q.
Proof. repeat split. discriminate. Qed.

(** ** A failed query *)

Lemma replyLog_error_line (q : string) (r : queryReply) (e : error) :
  reply_err r = Some e ->
  In (logLine ErrorLog 0 "Error querying Prometheus: %v" [OpError e]) (replyLog q r).
Proof.
  intros E. unfold replyLog. rewrite E.
  apply in_or_app. right. apply in_or_app. left. now left.
Qed.

Lemma skipped_wellFormed (r : queryReply) : skipped r = true -> wellFormed r = true.
Proof.
  unfold wellFormed. destruct (reply_res r); [|reflexivity]. now intros ->.
Qed.

Section FailedQuery.

Context {float64 : Type} (fzero : float64).
Variable parseFloat : string -> parseResult float64.
Context {Client : Type}.
Variable NewClient : apiConfig -> Client + error.
Context {Ctx World : Type}.
Variable Query : Client -> Ctx -> string -> World -> queryReply * World.

(** C4, amended.  A query that fails never aborts the call by failing: the
    error [e] is logged and nothing more.  The call ends as the results of
    the two queries alone decide.  Unless a reply is a vector with a
    non-empty rendering whose first line lacks the arrow (where line 89
    panics, error or not), the loop goes on to the next metric and the
    call returns a record and a nil error in which each field comes from
    its own reply: the zero value when the result is nil, renders to
    nothing or is not a vector, so the field of a failed query that came
    back without a usable result is left at zero; and the parsed token of
    the first row when the result is a vector, also when that vector came
    back together with the error. *)
Theorem failed_query_leaves_zero p ctx nodeName period st client r1 w1 r2 w2 e :
  NewClient (clientConfig p) = inl client ->
  Query client ctx (queryStr promCpuUsageAvg period nodeName) (world st) = (r1, w1) ->
  Query client ctx (queryStr promMemUsageAvg period nodeName) w1 = (r2, w2) ->
  reply_err r1 = Some e \/ reply_err r2 = Some e ->
  let out := NodeMetricsAvg fzero parseFloat NewClient Query p ctx nodeName period st in
  let st1 := afterReply (afterStart p st) w1
               (queryStr promCpuUsageAvg period nodeName) r1 in
  let st2 := afterReply st1 w2 (queryStr promMemUsageAvg period nodeName) r2 in
  out = (if wellFormed r1
         then if wellFormed r2
              then Done (Some {| Cpu := fieldOf fzero parseFloat r1;
                                 Memory := fieldOf fzero parseFloat r2 |}, None) st2
              else Panicked st2
         else Panicked st1)
  /\ (wellFormed r1 = true -> world (finalState out) = w2)
  /\ (reply_err r1 = Some e \/ wellFormed r1 = true ->
      In (logLine ErrorLog 0 "Error querying Prometheus: %v" [OpError e])
        (logged (finalState out)))
  /\ (forall r, skipped r = true ->
                wellFormed r = true /\ fieldOf fzero parseFloat r = fzero)
  /\ (forall r res token,
        reply_res r = Some res -> val_Type res = ValVector ->
        val_String res <> "" -> firstValue (val_String res) = Some token ->
        wellFormed r = true
        /\ fieldOf fzero parseFloat r = fst (ParseFloat fzero parseFloat token)).
Proof.
  intros HN HQ1 HQ2 Hfail out st1 st2.
  assert (Hout : out = (if wellFormed r1
                        then if wellFormed r2
                             then Done (Some {| Cpu := fieldOf fzero parseFloat r1;
                                                Memory := fieldOf fzero parseFloat r2 |},
                                        None) st2
                             else Panicked st2
                        else Panicked st1)).
  { unfold out. rewrite (run_queries _ _ _ _ _ _ _ _ _ _ _ _ _ _ HN HQ1 HQ2).
    cbn zeta. fold st1. fold st2.
    pose proof (tokenOf_None r1) as H1. pose proof (tokenOf_None r2) as H2.
    destruct (tokenOf r1) as [t1|].
    - destruct (wellFormed r1); [|destruct H1 as [_ H1]; now specialize (H1 eq_refl)].
      destruct (tokenOf r2) as [t2|].
      + destruct (wellFormed r2); [reflexivity|].
        destruct H2 as [_ H2]. now specialize (H2 eq_refl).
      + destruct H2 as [H2 _]. now rewrite (H2 eq_refl).
    - destruct H1 as [H1 _]. now rewrite (H1 eq_refl). }
  split; [exact Hout|]. split; [|split; [|split]].
  - intros E1. rewrite Hout, E1. now destruct (wellFormed r2).
  - intros Hcase. rewrite Hout.
    assert (In1 : reply_err r1 = Some e ->
                  In (logLine ErrorLog 0 "Error querying Prometheus: %v" [OpError e])
                    (logged st1)).
    { intros E. unfold st1, afterReply. cbn [logged].
      apply in_or_app. right. now apply replyLog_error_line. }
    assert (In2 : reply_err r1 = Some e \/ reply_err r2 = Some e ->
                  In (logLine ErrorLog 0 "Error querying Prometheus: %v" [OpError e])
                    (logged st2)).
    { intros [E|E]; unfold st2, afterReply; cbn [logged]; apply in_or_app.
      - left. now apply In1.
      - right. now apply replyLog_error_line. }
    destruct (wellFormed r1).
    + destruct (wellFormed r2); cbn [finalState]; now apply In2.
    + cbn [finalState]. destruct Hcase as [E|E]; [now apply In1 | discriminate].
  - intros r Hskip. split; [now apply skipped_wellFormed|].
    unfold fieldOf. now rewrite (tokenOf_skipped r Hskip).
  - intros r res token Hres Ht Hs Hv.
    pose proof (tokenOf_token _ _ _ Hres Hs Ht Hv) as Etok. split.
    + destruct (wellFormed r) eqn:E; [reflexivity|].
      apply tokenOf_None in E. congruence.
    + unfold fieldOf. now rewrite Etok.
Qed.

End FailedQuery.

(** A CPU query that fails and still brings a vector, with a healthy
    memory reply: the call returns both fields, the CPU field from the
    vector that came with the error. *)
Lemma failed_query_leaves_zero_demo :
  Demo.run Demo.goodAddress Demo.failedWithResult Demo.memReply
  = Done (Some {| Cpu := (5 # 10)%Q; Memory := (1225 # 100)%Q |}, None)
      (afterReply
         (afterReply (afterStart (Demo.client Demo.goodAddress) Demo.start)
            [Demo.cpuQuery] Demo.cpuQuery Demo.failedWithResult)
         [Demo.cpuQuery; Demo.memQuery] Demo.memQuery Demo.memReply).
Proof.
  apply (proj1 (failed_query_leaves_zero 0%Q Demo.parseFloat Demo.NewClient
                  (Demo.Query (Demo.answers Demo.failedWithResult Demo.memReply))
                  (Demo.client Demo.goodAddress) tt "worker-1" "5m" Demo.start
                  tt Demo.failedWithResult [Demo.cpuQuery]
                  Demo.memReply [Demo.cpuQuery; Demo.memQuery]
                  {| Error := "bad_response: invalid character" |}
                  eq_refl eq_refl eq_refl (or_introl eq_refl))).
Defined.
